(** * PCA9685 16-channel 12-bit PWM driver (pca9685.cpp) over an I2C transport

    The driver is a handful of register-level routines written against the
    four SMBus primitives of the host I2C layer.  The development models

    - C [int] values as [Z]; the additions and the multiplication that compute
      register addresses wrap to 32 bits, the bit operations are [Z.land] and
      [Z.lor] (which agree with two's complement on negative operands);
    - C [float] values as IEEE-754 binary32 numbers: the standard library's
      [spec_float] operations instantiated at precision 24 and [emax] 128,
      every operation rounding its result to single precision;
    - the cast from [float] to [int] as a partial function, and a routine
      that evaluates it outside its domain as undefined ([Undef]);
    - the calls to the I2C layer and to [usleep] as the nodes of a small
      free monad [io], so that a driver routine is a tree of bus requests
      that any transport can answer;
    - one particular transport, a plain file of byte registers, for the
      properties that speak of reading back what was written. *)

From Stdlib Require Import ZArith List Bool Lia QArith Qround.
From Stdlib Require Import Floats.SpecFloat.
Import ListNotations.

Local Open Scope Z_scope.

(** ** Machine integers *)

Module Int32.

Definition modulus : Z := 2 ^ 32.
Definition half_modulus : Z := 2 ^ 31.
Definition min_signed : Z := - half_modulus.
Definition max_signed : Z := half_modulus - 1.

(** Two's-complement wrap-around of a mathematical integer into [int]. *)
Definition wrap (z : Z) : Z := (z + half_modulus) mod modulus - half_modulus.

Definition add (a b : Z) : Z := wrap (a + b).
Definition mul (a b : Z) : Z := wrap (a * b).

Definition in_range (z : Z) : bool := (min_signed <=? z) && (z <=? max_signed).

End Int32.

(** ** Single-precision floats *)

Module Float32.

Definition prec : Z := 24.
Definition emax : Z := 128.

Definition float : Type := spec_float.

(** The binary32 numbers are the [spec_float] values whose mantissa and
    exponent are in canonical form. *)
Definition valid (x : float) : bool := valid_binary prec emax x.

Definition is_nan (x : float) : bool :=
  match x with S754_nan => true | _ => false end.

Definition mul : float -> float -> float := SFmul prec emax.
Definition div : float -> float -> float := SFdiv prec emax.
Definition sub : float -> float -> float := SFsub prec emax.

Definition ltb : float -> float -> bool := SFltb.
Definition leb : float -> float -> bool := SFleb.
(** C's [a > b] is [b < a]; both are false when an operand is NaN. *)
Definition gtb (a b : float) : bool := SFltb b a.

(** Conversion of an integer (an [int] operand or an integral literal). *)
Definition of_Z (n : Z) : float := binary_normalize prec emax n 0 false.

(** The literal [0.5f]. *)
Definition half : float := binary_normalize prec emax 1 (-1) false.

(** The cast [(int)x]: truncation toward zero.  C leaves the conversion
    undefined for NaN, the infinities and values whose integral part does
    not fit in [int]; those give [None]. *)
Definition to_int (x : float) : option Z :=
  match x with
  | S754_zero _ => Some 0
  | S754_finite s m e =>
      let mag := Z.shiftl (Zpos m) e in
      let z := if s then - mag else mag in
      if Int32.in_range z then Some z else None
  | S754_infinity _ | S754_nan => None
  end.

(** The rational number a finite float stands for. *)
Definition to_Q (x : float) : Q :=
  match x with
  | S754_finite s m e =>
      let n := if s then Zneg m else Zpos m in
      match e with
      | Z0 => inject_Z n
      | Zpos p => inject_Z (n * 2 ^ Zpos p)
      | Zneg p => Qmake n (2 ^ p)%positive
      end
  | _ => 0%Q
  end.

End Float32.

(** ** The I2C transport as seen by the driver

    [pigpio.h] provides [i2cReadByteData], [i2cWriteByteData],
    [i2cReadWordData] and [i2cWriteWordData]; [unistd.h] provides [usleep].
    Each returns an [int].  A driver routine is a tree whose nodes are these
    calls and whose branches are indexed by the value the call returns. *)

Inductive request : Type :=
| ReadByteData (handle reg : Z)
| WriteByteData (handle reg bVal : Z)
| ReadWordData (handle reg : Z)
| WriteWordData (handle reg wVal : Z)
| USleep (usec : Z).

Inductive io (A : Type) : Type :=
| Ret (a : A)
| Call (r : request) (k : Z -> io A)
| Undef.

Arguments Ret {A} a.
Arguments Call {A} r k.
Arguments Undef {A}.

Fixpoint bind {A B : Type} (m : io A) (f : A -> io B) : io B :=
  match m with
  | Ret a => f a
  | Call r k => Call r (fun v => bind (k v) f)
  | Undef => Undef
  end.

Declare Scope io_scope.
Delimit Scope io_scope with io.
Notation "x <- c1 ;; c2" := (bind c1 (fun x => c2))
  (at level 61, c1 at next level, right associativity) : io_scope.
Notation "c1 ;; c2" := (bind c1 (fun _ => c2))
  (at level 61, right associativity) : io_scope.
Local Open Scope io_scope.

Definition i2cReadByteData (handle reg : Z) : io Z := Call (ReadByteData handle reg) Ret.
Definition i2cWriteByteData (handle reg bVal : Z) : io Z := Call (WriteByteData handle reg bVal) Ret.
Definition i2cReadWordData (handle reg : Z) : io Z := Call (ReadWordData handle reg) Ret.
Definition i2cWriteWordData (handle reg wVal : Z) : io Z := Call (WriteWordData handle reg wVal) Ret.
Definition usleep (usec : Z) : io Z := Call (USleep usec) Ret.

(** The result of a C expression whose evaluation may be undefined. *)
Definition defined {A : Type} (o : option A) : io A :=
  match o with
  | Some a => Ret a
  | None => Undef
  end.

(** A transport answers every request with an [int] and moves to a new
    state.  Running a routine yields the transcript of requests with their
    answers, the routine's result and the final transport state; [None]
    when the routine runs into undefined behaviour. *)
Definition handler (S : Type) : Type := request -> S -> Z * S.

Definition transcript : Type := list (request * Z).

Fixpoint run {S A : Type} (h : handler S) (p : io A) (s : S)
  : option (transcript * A * S) :=
  match p with
  | Ret a => Some ([], a, s)
  | Undef => None
  | Call r k =>
      let (v, s') := h r s in
      match run h (k v) s' with
      | Some (t, a, s'') => Some ((r, v) :: t, a, s'')
      | None => None
      end
  end.

Definition requests (t : transcript) : list request := map fst t.

(** ** The driver *)

(* Setup registers *)
Definition PCA9685_MODE1 : Z := 0x0.
Definition PCA9685_PRESCALE : Z := 0xFE.

(* First LED and all LED *)
Definition LED0_ON_L : Z := 0x6.
Definition LEDALL_ON_L : Z := 0xFA.

Definition PIN_ALL : Z := 16.

(** [baseReg]: helper function to get to register. *)
Definition baseReg (pin : Z) : Z :=
  if pin >=? PIN_ALL then LEDALL_ON_L
  else Int32.add LED0_ON_L (Int32.mul 4 pin).

(** Line 74 of [pca9685PWMFreq]: cap at min and max. *)
Definition capFreq (freq : Float32.float) : Float32.float :=
  if Float32.gtb freq (Float32.of_Z 1000) then Float32.of_Z 1000
  else if Float32.ltb freq (Float32.of_Z 40) then Float32.of_Z 40
  else freq.

(** Line 79 of [pca9685PWMFreq], applied to the capped frequency:
    [(int)(25000000.0f / (4096 * freq) - 0.5f)]. *)
Definition prescaleOf (freq : Float32.float) : option Z :=
  Float32.to_int
    (Float32.sub
       (Float32.div (Float32.of_Z 25000000)
                    (Float32.mul (Float32.of_Z 4096) freq))
       Float32.half).

(** [pca9685PWMFreq]: sets the frequency of PWM signals. *)
Definition pca9685PWMFreq (fd : Z) (freq : Float32.float) : io unit :=
  let freq := capFreq freq in
  prescale <- defined (prescaleOf freq) ;;
  r <- i2cReadByteData fd PCA9685_MODE1 ;;
  let settings := Z.land r 0x7F in
  let sleep := Z.lor settings 0x10 in
  let wake := Z.land settings 0xEF in
  let restart := Z.lor wake 0x80 in
  i2cWriteByteData fd PCA9685_MODE1 sleep ;;
  i2cWriteByteData fd PCA9685_PRESCALE prescale ;;
  i2cWriteByteData fd PCA9685_MODE1 wake ;;
  usleep 1000 ;;
  i2cWriteByteData fd PCA9685_MODE1 restart ;;
  Ret tt.

(** [pca9685Setup]: set up a device; enable auto-increment of registers. *)
Definition pca9685Setup (handle : Z) (freq : Float32.float) : io Z :=
  r <- i2cReadByteData handle PCA9685_MODE1 ;;
  let settings := Z.land r 0x7F in
  let autoInc := Z.lor settings 0x20 in
  i2cWriteByteData handle PCA9685_MODE1 autoInc ;;
  (if Float32.gtb freq (Float32.of_Z 0)
   then pca9685PWMFreq handle freq
   else Ret tt) ;;
  Ret 1.

(** [pca9685PWMReset]: set all leds back to default values. *)
Definition pca9685PWMReset (fd : Z) : io unit :=
  i2cWriteWordData fd LEDALL_ON_L 0x0 ;;
  i2cWriteWordData fd (Int32.add LEDALL_ON_L 2) 0x1000 ;;
  Ret tt.

(** [pca9685PWMWrite]: write on and off ticks manually to a pin. *)
Definition pca9685PWMWrite (fd pin on off : Z) : io unit :=
  let reg := baseReg pin in
  i2cWriteWordData fd reg (Z.land on 0x0FFF) ;;
  i2cWriteWordData fd (Int32.add reg 2) (Z.land off 0x0FFF) ;;
  Ret tt.

(** [pca9685PWMRead]: reads both on and off registers as 16 bit of data.
    The two [int *] arguments are modelled by whether they are non-null;
    the routine returns what it stores through each non-null pointer. *)
Definition pca9685PWMRead (fd pin : Z) (on off : bool) : io (option Z * option Z) :=
  let reg := baseReg pin in
  von <- (if on then v <- i2cReadWordData fd reg ;; Ret (Some v) else Ret None) ;;
  voff <- (if off then v <- i2cReadWordData fd (Int32.add reg 2) ;; Ret (Some v)
           else Ret None) ;;
  Ret (von, voff).

(** [pca9685FullOff]: enables or deactivates full-off. *)
Definition pca9685FullOff (fd pin tf : Z) : io unit :=
  let reg := Int32.add (baseReg pin) 3 in
  state <- i2cReadByteData fd reg ;;
  let state := if tf =? 0 then Z.land state 0xEF else Z.lor state 0x10 in
  i2cWriteByteData fd reg state ;;
  Ret tt.

(** [pca9685FullOn]: enables or deactivates full-on. *)
Definition pca9685FullOn (fd pin tf : Z) : io unit :=
  let reg := Int32.add (baseReg pin) 1 in
  state <- i2cReadByteData fd reg ;;
  let state := if tf =? 0 then Z.land state 0xEF else Z.lor state 0x10 in
  i2cWriteByteData fd reg state ;;
  (if tf =? 0 then Ret tt else pca9685FullOff fd pin 0) ;;
  Ret tt.

Definition result {S A : Type} (o : option (transcript * A * S)) : option A :=
  match o with
  | Some (_, a, _) => Some a
  | None => None
  end.

Definition final {S A : Type} (o : option (transcript * A * S)) : option S :=
  match o with
  | Some (_, _, s) => Some s
  | None => None
  end.

Definition issued {S A : Type} (o : option (transcript * A * S)) : option (list request) :=
  match o with
  | Some (t, _, _) => Some (requests t)
  | None => None
  end.

(** ** A register-file transport

    The device behind the handle, reduced to what the read-back properties
    need: 8-bit registers addressed by number, each returning the byte last
    written to it; a word access touches the addressed register (low byte)
    and the next one (high byte), which is what the chip's auto-increment
    mode provides.  Writes report success ([0]).  The broadcast block at
    [LEDALL_ON_L] is not given its fan-out to the sixteen channels, so the
    read-back properties are stated for the channels 0..15 only. *)

Module Chip.

Definition regs : Type := Z -> Z.

Definition upd (c : regs) (a v : Z) : regs :=
  fun x => if x =? a then v else c x.

Definition read_word (c : regs) (a : Z) : Z :=
  Z.lor (c a) (Z.shiftl (c (a + 1)) 8).

Definition write_word (c : regs) (a v : Z) : regs :=
  upd (upd c a (Z.land v 0xFF)) (a + 1) (Z.land (Z.shiftr v 8) 0xFF).

Definition step : handler regs :=
  fun r c =>
    match r with
    | ReadByteData _ reg => (c reg, c)
    | WriteByteData _ reg bVal => (0, upd c reg (Z.land bVal 0xFF))
    | ReadWordData _ reg => (read_word c reg, c)
    | WriteWordData _ reg wVal => (0, write_word c reg wVal)
    | USleep _ => (0, c)
    end.

(** Every register holds a byte. *)
Definition ok (c : regs) : Prop := forall a, 0 <= c a < 256.

(** The on and off words of a channel as [pca9685PWMRead] returns them. *)
Definition readback (fd pin : Z) (c : regs) : option (option Z * option Z) :=
  result (run step (pca9685PWMRead fd pin true true) c).

End Chip.

(** ** The prescale formula in exact arithmetic

    The value the formula of the specification denotes when its division and
    subtraction are those of the rationals: the truncation toward zero of
    [25000000 / (4096 * f) - 1/2]. *)

Definition Qtrunc (q : Q) : Z :=
  if Qle_bool 0 q then Qfloor q else Qceiling q.

Definition prescaleExact (freq : Float32.float) : Z :=
  Qtrunc (25000000 / (4096 * Float32.to_Q freq) - (1 # 2))%Q.

(** ** Auxiliary quantities of the prescale analysis *)

(** The mantissa 12500000 of [25000000.0f] (whose exponent is 1) shifted
    left by 24 places: the dividend [SFdiv] divides by the mantissa of a
    normal divisor. *)
Definition scaledDividend : Z := 209715200000000.

(** Whether, at the integer frequency [n], the driver's prescale is the value
    of the exact formula. *)
Definition agreesAt (n : Z) : bool :=
  match prescaleOf (capFreq (Float32.of_Z n)) with
  | Some p => p =? prescaleExact (capFreq (Float32.of_Z n))
  | None => false
  end.

(** ** Classes of requests *)

(** A byte write whose value is a byte (or any other request). *)
Definition byteWrite (r : request) : bool :=
  match r with
  | WriteByteData _ _ bVal => (0 <=? bVal) && (bVal <=? 255)
  | _ => true
  end.

(** A request that reads. *)
Definition isRead (r : request) : bool :=
  match r with
  | ReadByteData _ _ | ReadWordData _ _ => true
  | _ => false
  end.

(** * Properties *)

(** ** Machine integers *)

Lemma wrap_small (z : Z) :
  Int32.min_signed <= z <= Int32.max_signed -> Int32.wrap z = z.
Proof.
  unfold Int32.wrap, Int32.min_signed, Int32.max_signed, Int32.half_modulus, Int32.modulus.
  intros H. rewrite Z.mod_small; lia.
Qed.

Lemma add_small (a b : Z) :
  -1000000 <= a <= 1000000 -> -1000000 <= b <= 1000000 -> Int32.add a b = a + b.
Proof.
  intros Ha Hb. unfold Int32.add. apply wrap_small.
  unfold Int32.min_signed, Int32.max_signed, Int32.half_modulus. lia.
Qed.

Lemma mul4_small (b : Z) :
  -1000000 <= b <= 1000000 -> Int32.mul 4 b = 4 * b.
Proof.
  intros Hb. unfold Int32.mul. apply wrap_small.
  unfold Int32.min_signed, Int32.max_signed, Int32.half_modulus. lia.
Qed.

Lemma baseReg_channel (pin : Z) :
  0 <= pin <= 15 -> baseReg pin = 6 + 4 * pin.
Proof.
  intros H. unfold baseReg, PIN_ALL, LED0_ON_L.
  destruct (pin >=? 16) eqn:E; [lia |].
  rewrite mul4_small by lia. apply add_small; lia.
Qed.

Lemma baseReg_all (pin : Z) :
  16 <= pin -> baseReg pin = 250.
Proof.
  intros H. unfold baseReg, PIN_ALL, LEDALL_ON_L.
  destruct (pin >=? 16) eqn:E; [reflexivity | lia].
Qed.

(** ** Running a routine on an arbitrary transport *)

Section AnyTransport.

Context {S : Type} (h : handler S).

Lemma run_bind {A B : Type} (m : io A) (f : A -> io B) (s : S) :
  run h (bind m f) s =
  match run h m s with
  | Some (t, a, s') =>
      match run h (f a) s' with
      | Some (t', b, s'') => Some (t ++ t', b, s'')
      | None => None
      end
  | None => None
  end.
Proof.
  revert s. induction m as [a | r k IH |]; intros s; simpl.
  - destruct (run h (f a) s) as [[[t' b] s''] |]; reflexivity.
  - destruct (h r s) as [v s']. rewrite IH.
    destruct (run h (k v) s') as [[[t a] s1] |]; [| reflexivity].
    destruct (run h (f a) s1) as [[[t' b] s2] |]; reflexivity.
  - reflexivity.
Qed.

Lemma run_call {A : Type} (r : request) (k : Z -> io A) (s : S) :
  run h (Call r k) s =
  match run h (k (fst (h r s))) (snd (h r s)) with
  | Some (t, a, s'') => Some ((r, fst (h r s)) :: t, a, s'')
  | None => None
  end.
Proof. simpl. destruct (h r s); reflexivity. Qed.

Lemma pca9685PWMFreq_run (s : S) (fd : Z) (f : Float32.float) (p : Z) :
  prescaleOf (capFreq f) = Some p ->
  let r := fst (h (ReadByteData fd PCA9685_MODE1) s) in
  let settings := Z.land r 0x7F in
  issued (run h (pca9685PWMFreq fd f) s) =
  Some [ReadByteData fd PCA9685_MODE1;
        WriteByteData fd PCA9685_MODE1 (Z.lor settings 0x10);
        WriteByteData fd PCA9685_PRESCALE p;
        WriteByteData fd PCA9685_MODE1 (Z.land settings 0xEF);
        USleep 1000;
        WriteByteData fd PCA9685_MODE1 (Z.lor (Z.land settings 0xEF) 0x80)]
  /\ result (run h (pca9685PWMFreq fd f) s) = Some tt.
Proof.
  intros Hp r settings. unfold pca9685PWMFreq. rewrite Hp.
  unfold i2cReadByteData, i2cWriteByteData, usleep. cbn [defined bind].
  rewrite !run_call. split; reflexivity.
Qed.

Lemma pca9685FullOff_run (s : S) (fd pin tf : Z) :
  let reg := Int32.add (baseReg pin) 3 in
  let r := fst (h (ReadByteData fd reg) s) in
  issued (run h (pca9685FullOff fd pin tf) s) =
  Some [ReadByteData fd reg;
        WriteByteData fd reg (if tf =? 0 then Z.land r 0xEF else Z.lor r 0x10)].
Proof.
  intros reg r. unfold pca9685FullOff, i2cReadByteData, i2cWriteByteData.
  cbn [bind]. rewrite !run_call. reflexivity.
Qed.

Lemma pca9685FullOn_run (s : S) (fd pin tf : Z) :
  let on_h := Int32.add (baseReg pin) 1 in
  let off_h := Int32.add (baseReg pin) 3 in
  let r := fst (h (ReadByteData fd on_h) s) in
  let s1 := snd (h (ReadByteData fd on_h) s) in
  let s2 := snd (h (WriteByteData fd on_h (Z.lor r 0x10)) s1) in
  let r' := fst (h (ReadByteData fd off_h) s2) in
  issued (run h (pca9685FullOn fd pin tf) s) =
  Some (if tf =? 0
        then [ReadByteData fd on_h; WriteByteData fd on_h (Z.land r 0xEF)]
        else [ReadByteData fd on_h; WriteByteData fd on_h (Z.lor r 0x10);
              ReadByteData fd off_h; WriteByteData fd off_h (Z.land r' 0xEF)]).
Proof.
  intros on_h off_h r s1 s2 r'.
  unfold pca9685FullOn, pca9685FullOff, i2cReadByteData, i2cWriteByteData.
  destruct (tf =? 0); cbn [bind]; rewrite !run_call; reflexivity.
Qed.

End AnyTransport.

Lemma gtb_zero_not_nan (f : Float32.float) :
  Float32.gtb f (Float32.of_Z 0) = true -> Float32.is_nan f = false.
Proof. destruct f; [reflexivity | reflexivity | discriminate | reflexivity]. Qed.

(** ** Finite checks and bit identities *)

Lemma forall_range (P : Z -> bool) (lo len : nat) :
  forallb P (map Z.of_nat (seq lo len)) = true ->
  forall z : Z, Z.of_nat lo <= z < Z.of_nat lo + Z.of_nat len -> P z = true.
Proof.
  intros H z Hz. rewrite forallb_forall in H. apply H.
  apply in_map_iff. exists (Z.to_nat z). split; [lia |]. apply in_seq. lia.
Qed.

Lemma land_7F_byte (r : Z) : 0 <= r < 256 -> Z.land r 0x7F = Z.clearbit r 7.
Proof.
  intros H. apply Z.eqb_eq.
  apply (forall_range (fun r => Z.land r 0x7F =? Z.clearbit r 7) 0 256); [| lia].
  vm_compute. reflexivity.
Qed.

Lemma land_EF_byte (x : Z) : 0 <= x < 256 -> Z.land x 0xEF = Z.clearbit x 4.
Proof.
  intros H. apply Z.eqb_eq.
  apply (forall_range (fun x => Z.land x 0xEF =? Z.clearbit x 4) 0 256); [| lia].
  vm_compute. reflexivity.
Qed.

Lemma autoInc_byte (r : Z) :
  0 <= r < 256 -> Z.lor (Z.land r 0x7F) 0x20 = Z.setbit (Z.clearbit r 7) 5.
Proof.
  intros H. apply Z.eqb_eq.
  apply (forall_range (fun r => Z.lor (Z.land r 0x7F) 0x20 =? Z.setbit (Z.clearbit r 7) 5)
           0 256); [| lia].
  vm_compute. reflexivity.
Qed.

Lemma land_7F_range (r : Z) : 0 <= Z.land r 0x7F < 128.
Proof.
  change 0x7F with (Z.ones 7). rewrite Z.land_ones by lia.
  apply Z.mod_pos_bound. lia.
Qed.


Lemma testbit_small (v k n : Z) :
  0 <= v < 2 ^ k -> k <= n -> Z.testbit v n = false.
Proof.
  intros [H0 H1] Hk.
  destruct (Z.eq_dec v 0) as [-> | Hv]; [apply Z.bits_0 |].
  apply Z.bits_above_log2; [lia |].
  assert (Z.log2 v < k) by (apply Z.log2_lt_pow2; lia). lia.
Qed.

Lemma testbit_ones8 (m : Z) : 0 <= m -> Z.testbit 255 m = (m <? 8).
Proof. intros H. change 255 with (Z.ones 8). apply Z.testbit_ones_nonneg; lia. Qed.

Lemma word_of_bytes (v : Z) :
  0 <= v < 65536 ->
  Z.lor (Z.land v 255) (Z.shiftl (Z.land (Z.shiftr v 8) 255) 8) = v.
Proof.
  intros Hv. apply Z.bits_inj'. intros n Hn.
  rewrite Z.lor_spec, Z.land_spec, testbit_ones8 by lia.
  destruct (Z.ltb_spec n 8) as [H8 | H8].
  - rewrite Z.shiftl_spec_low by lia. rewrite andb_true_r, orb_false_r. reflexivity.
  - rewrite Z.shiftl_spec by lia. rewrite Z.land_spec, Z.shiftr_spec, testbit_ones8 by lia.
    replace (n - 8 + 8) with n by lia. rewrite andb_false_r. simpl.
    destruct (Z.ltb_spec (n - 8) 8) as [H16 | H16].
    + apply andb_true_r.
    + rewrite andb_false_r. symmetry. apply (testbit_small v 16); lia.
Qed.

Lemma land_4095_range (x : Z) : 0 <= Z.land x 4095 < 4096.
Proof.
  change 4095 with (Z.ones 12). rewrite Z.land_ones by lia.
  apply Z.mod_pos_bound. lia.
Qed.

(** ** The register file *)

Lemma upd_same (c : Chip.regs) (a v : Z) : Chip.upd c a v a = v.
Proof. unfold Chip.upd. rewrite Z.eqb_refl. reflexivity. Qed.

Lemma upd_other (c : Chip.regs) (a v x : Z) : x <> a -> Chip.upd c a v x = c x.
Proof. intros H. unfold Chip.upd. apply Z.eqb_neq in H. rewrite H. reflexivity. Qed.

Lemma read_write_word_same (c : Chip.regs) (a v : Z) :
  0 <= v < 65536 -> Chip.read_word (Chip.write_word c a v) a = v.
Proof.
  intros Hv. unfold Chip.read_word, Chip.write_word.
  rewrite upd_same, upd_other, upd_same by lia. apply word_of_bytes, Hv.
Qed.

Lemma read_write_word_other (c : Chip.regs) (a v x : Z) :
  x + 1 < a \/ a + 1 < x -> Chip.read_word (Chip.write_word c a v) x = Chip.read_word c x.
Proof.
  intros H. unfold Chip.read_word, Chip.write_word.
  rewrite !upd_other by lia. reflexivity.
Qed.

Lemma testbit_239 (m : Z) : 0 <= m -> Z.testbit 239 m = (m <? 8) && negb (m =? 4).
Proof.
  intros H. change 239 with (Z.clearbit (Z.ones 8) 4).
  rewrite Z.clearbit_eqb, Z.testbit_ones_nonneg by lia.
  rewrite (Z.eqb_sym 4 m). reflexivity.
Qed.

Lemma testbit_16 (m : Z) : Z.testbit 16 m = (m =? 4).
Proof. change 16 with (2 ^ 4). rewrite Z.pow2_bits_eqb by lia. apply Z.eqb_sym. Qed.

Lemma word_flag (lo hi : Z) :
  0 <= lo < 256 -> Z.testbit (Z.lor lo (Z.shiftl hi 8)) 12 = Z.testbit hi 4.
Proof.
  intros Hlo. rewrite Z.lor_spec, Z.shiftl_spec by lia.
  rewrite (testbit_small lo 8) by lia. reflexivity.
Qed.

Lemma word_set_flag (lo hi : Z) :
  0 <= hi < 256 ->
  Z.lor lo (Z.shiftl (Z.land (Z.lor hi 16) 255) 8) = Z.setbit (Z.lor lo (Z.shiftl hi 8)) 12.
Proof.
  intros Hhi. apply Z.bits_inj'. intros n Hn.
  rewrite Z.setbit_eqb, !Z.lor_spec by lia.
  destruct (Z.ltb_spec n 8) as [H8 | H8].
  - rewrite !Z.shiftl_spec_low by lia.
    replace (12 =? n) with false by (symmetry; apply Z.eqb_neq; lia). reflexivity.
  - rewrite !Z.shiftl_spec by lia.
    rewrite Z.land_spec, Z.lor_spec, testbit_16, testbit_ones8 by lia.
    destruct (Z.eqb_spec 12 n) as [<- | Hne].
    + simpl. rewrite !orb_true_r. reflexivity.
    + replace (n - 8 =? 4) with false by (symmetry; apply Z.eqb_neq; lia).
      rewrite orb_false_r. simpl.
      destruct (Z.ltb_spec (n - 8) 8) as [H16 | H16]; [now rewrite andb_true_r |].
      rewrite andb_false_r, (testbit_small hi 8) by lia. reflexivity.
Qed.

Lemma word_clear_flag (lo hi : Z) :
  0 <= lo < 256 -> 0 <= hi < 256 ->
  Z.lor lo (Z.shiftl (Z.land (Z.land hi 239) 255) 8) = Z.clearbit (Z.lor lo (Z.shiftl hi 8)) 12.
Proof.
  intros Hlo Hhi. apply Z.bits_inj'. intros n Hn.
  rewrite Z.clearbit_eqb, !Z.lor_spec by lia.
  destruct (Z.ltb_spec n 8) as [H8 | H8].
  - rewrite !Z.shiftl_spec_low by lia.
    replace (12 =? n) with false by (symmetry; apply Z.eqb_neq; lia).
    simpl. rewrite andb_true_r. reflexivity.
  - rewrite !Z.shiftl_spec by lia.
    rewrite !Z.land_spec, testbit_239, testbit_ones8 by lia.
    rewrite (testbit_small lo 8) by lia. cbn [orb].
    destruct (Z.eqb_spec 12 n) as [<- | Hne].
    + cbn. rewrite andb_false_r. reflexivity.
    + replace (n - 8 =? 4) with false by (symmetry; apply Z.eqb_neq; lia).
      cbn [negb]. rewrite !andb_true_r.
      destruct (Z.ltb_spec (n - 8) 8) as [H16 | H16]; [now rewrite !andb_true_r |].
      rewrite andb_false_r, (testbit_small hi 8) by lia. reflexivity.
Qed.

Lemma upd_eq (c : Chip.regs) (a v x : Z) : x = a -> Chip.upd c a v x = v.
Proof. intros ->. apply upd_same. Qed.

Ltac upd_simpl :=
  repeat match goal with
    | |- context [Chip.upd ?c ?a ?v ?x] =>
        first [ rewrite (upd_other c a v x) by lia
              | rewrite (upd_eq c a v x) by lia ]
    end.

Ltac run_chip :=
  cbn [bind]; rewrite ?run_call; cbn [Chip.step fst snd run result final].

(** ** The channel-address helper *)

(** C5.  [baseReg] maps every channel index N in [0,15] to 0x06 + 4*N, and
    the word that [pca9685PWMWrite] sends second (the off word) goes to that
    address plus 2; channel index 16 maps to the broadcast address 0xFA,
    which is not 0x06 + 4*16. *)
Theorem baseReg_addressing :
  forall pin : Z, 0 <= pin <= 15 ->
    baseReg pin = 0x06 + 4 * pin
    /\ (forall (S : Type) (h : handler S) (s : S) (fd on off : Z),
          issued (run h (pca9685PWMWrite fd pin on off) s) =
          Some [WriteWordData fd (0x06 + 4 * pin) (Z.land on 0xFFF);
                WriteWordData fd (0x06 + 4 * pin + 2) (Z.land off 0xFFF)])
    /\ baseReg 16 = 0xFA
    /\ baseReg 16 <> 0x06 + 4 * 16.
Proof.
  intros pin Hpin. split; [| split; [| split]].
  - apply baseReg_channel, Hpin.
  - intros S h s fd on off. unfold pca9685PWMWrite, i2cWriteWordData.
    rewrite (baseReg_channel pin Hpin), add_small by lia.
    cbn [bind]. rewrite !run_call. reflexivity.
  - reflexivity.
  - rewrite baseReg_all by lia. discriminate.
Qed.

Lemma baseReg_addressing_witness :
  baseReg 3 = 0x06 + 4 * 3 /\ baseReg 16 = 0xFA.
Proof.
  destruct (baseReg_addressing 3 ltac:(lia)) as (H1 & _ & H3 & _).
  split; [exact H1 | exact H3].
Defined.

(** ** Reset *)

(** C7.  Whatever the transport answers, [pca9685PWMReset] issues exactly two
    requests: a word write of 0 to the broadcast on-register 0xFA, then a word
    write of 0x1000 to the broadcast off-register 0xFA + 2. *)
Theorem pca9685PWMReset_requests :
  forall (S : Type) (h : handler S) (s : S) (fd : Z),
    issued (run h (pca9685PWMReset fd) s) =
    Some [WriteWordData fd 0xFA 0; WriteWordData fd (0xFA + 2) 0x1000].
Proof.
  intros S h s fd. unfold pca9685PWMReset, i2cWriteWordData.
  cbn [bind]. rewrite !run_call. reflexivity.
Qed.

(** ** Writing and reading a channel *)

(** C3.  On the register file, for every channel [pin] in [0,15] and all
    integers [on] and [off], [pca9685PWMWrite] followed by [pca9685PWMRead]
    (both outputs requested) returns exactly [(on & 0xFFF, off & 0xFFF)], and
    bit 12, the override bit, of both words read back is 0. *)
Theorem write_read_roundtrip :
  forall (c : Chip.regs) (fd pin on off : Z), 0 <= pin <= 15 ->
    result (run Chip.step
              (pca9685PWMWrite fd pin on off ;; pca9685PWMRead fd pin true true) c)
    = Some (Some (Z.land on 0xFFF), Some (Z.land off 0xFFF))
    /\ Z.testbit (Z.land on 0xFFF) 12 = false
    /\ Z.testbit (Z.land off 0xFFF) 12 = false.
Proof.
  intros c fd pin on off Hpin.
  pose proof (land_4095_range on) as Hon. pose proof (land_4095_range off) as Hoff.
  split; [| split; [apply (testbit_small _ 12) | apply (testbit_small _ 12)]; lia].
  unfold pca9685PWMWrite, pca9685PWMRead, i2cWriteWordData, i2cReadWordData.
  rewrite (baseReg_channel pin Hpin), add_small by lia.
  cbn [bind]. rewrite !run_call. cbn [Chip.step fst snd run result].
  rewrite read_write_word_other, !read_write_word_same by lia.
  reflexivity.
Qed.


Lemma write_read_roundtrip_witness :
  result (run Chip.step
            (pca9685PWMWrite 0 3 0x1234 0xFFFF ;; pca9685PWMRead 0 3 true true)
            (fun _ => 0))
  = Some (Some 0x234, Some 0xFFF).
Proof.
  destruct (write_read_roundtrip (fun _ => 0) 0 3 0x1234 0xFFFF ltac:(lia)) as [H _].
  exact H.
Defined.

(** ** The override flags *)

Lemma baseReg_range (pin : Z) : 0 <= pin <= 16 -> 6 <= baseReg pin <= 250.
Proof.
  intros H. destruct (Z.eq_dec pin 16) as [-> | Hne].
  - rewrite baseReg_all; lia.
  - rewrite baseReg_channel; lia.
Qed.

Lemma testbit4_clear (r : Z) : Z.testbit (Z.land r 0xEF) 4 = false.
Proof. rewrite Z.land_spec. change (Z.testbit 0xEF 4) with false. apply andb_false_r. Qed.

Lemma testbit4_set (r : Z) : Z.testbit (Z.lor r 0x10) 4 = true.
Proof. rewrite Z.lor_spec. change (Z.testbit 0x10 4) with true. apply orb_true_r. Qed.

Lemma pca9685FullOff_chip (c : Chip.regs) (fd pin tf : Z) :
  Chip.ok c -> 0 <= pin <= 15 ->
  exists (c' : Chip.regs) (on0 off0 : Z),
    final (run Chip.step (pca9685FullOff fd pin tf) c) = Some c'
    /\ Chip.readback fd pin c = Some (Some on0, Some off0)
    /\ Chip.readback fd pin c' =
       Some (Some on0, Some (if tf =? 0 then Z.clearbit off0 12 else Z.setbit off0 12))
    /\ (forall a : Z, a <> baseReg pin + 3 -> c' a = c a).
Proof.
  intros Hok Hpin.
  unfold Chip.readback, pca9685FullOff, pca9685PWMRead, i2cReadByteData,
    i2cWriteByteData, i2cReadWordData.
  rewrite (baseReg_channel pin Hpin), !add_small by lia.
  run_chip.
  eexists _, _, _. split; [reflexivity |]. split; [reflexivity |]. split.
  - run_chip. unfold Chip.read_word. upd_simpl.
    replace (6 + 4 * pin + 2 + 1) with (6 + 4 * pin + 3) by lia.
    destruct (tf =? 0).
    + rewrite word_clear_flag by apply Hok. reflexivity.
    + rewrite word_set_flag by apply Hok. reflexivity.
  - intros a Ha. apply upd_other, Ha.
Qed.

Lemma pca9685FullOn_chip (c : Chip.regs) (fd pin tf : Z) :
  Chip.ok c -> 0 <= pin <= 15 ->
  exists (c' : Chip.regs) (on0 off0 on1 off1 : Z),
    final (run Chip.step (pca9685FullOn fd pin tf) c) = Some c'
    /\ Chip.readback fd pin c = Some (Some on0, Some off0)
    /\ Chip.readback fd pin c' = Some (Some on1, Some off1)
    /\ (tf <> 0 -> Z.testbit on1 12 = true /\ Z.testbit off1 12 = false)
    /\ (tf = 0 -> Z.testbit on1 12 = false /\ off1 = off0).
Proof.
  intros Hok Hpin.
  unfold Chip.readback, pca9685FullOn, pca9685FullOff, pca9685PWMRead, i2cReadByteData,
    i2cWriteByteData, i2cReadWordData.
  rewrite (baseReg_channel pin Hpin), !add_small by lia.
  destruct (Z.eqb_spec tf 0) as [Htf | Htf].
  - run_chip. eexists _, _, _, _, _.
    split; [reflexivity |]. split; [reflexivity |]. split; [run_chip; reflexivity |].
    split; [intros H; contradiction |]. intros _.
    unfold Chip.read_word. upd_simpl.
    replace (6 + 4 * pin + 2 + 1) with (6 + 4 * pin + 3) by lia.
    split; [| reflexivity].
    rewrite word_flag by apply Hok.
    rewrite !Z.land_spec. change (Z.testbit 239 4) with false.
    rewrite andb_false_r. reflexivity.
  - run_chip. eexists _, _, _, _, _.
    split; [reflexivity |]. split; [reflexivity |]. split; [run_chip; reflexivity |].
    split; [| intros H; contradiction]. intros _.
    unfold Chip.read_word. upd_simpl.
    replace (6 + 4 * pin + 2 + 1) with (6 + 4 * pin + 3) by lia.
    change (0 =? 0) with true. cbv iota.
    rewrite !word_flag by apply Hok.
    rewrite !Z.land_spec, Z.lor_spec.
    change (Z.testbit 239 4) with false. change (Z.testbit 16 4) with true.
    change (Z.testbit 255 4) with true.
    rewrite orb_true_r, andb_false_r. split; reflexivity.
Qed.

(** C9.  For every channel index [pin] in [0,16], every [tf] and every
    transport, [pca9685FullOff] addresses one register only, the off-register
    high byte at [baseReg pin + 3]: it reads it and writes it back with bit 4
    set (non-zero [tf]) or cleared ([tf = 0]) and, when the value read is a
    byte, with no other bit changed.  On the register file, for the channels
    0..15, the on word read back afterwards is the one read back before (the
    full-on flag is not modified), the off word differs from the earlier one
    in bit 12 only, and no register other than [baseReg pin + 3] changes. *)
Theorem pca9685FullOff_frame :
  forall fd pin tf : Z, 0 <= pin <= 16 ->
    (forall (S : Type) (h : handler S) (s : S),
       let r := fst (h (ReadByteData fd (baseReg pin + 3)) s) in
       exists v : Z,
         issued (run h (pca9685FullOff fd pin tf) s) =
         Some [ReadByteData fd (baseReg pin + 3); WriteByteData fd (baseReg pin + 3) v]
         /\ Z.testbit v 4 = negb (tf =? 0)
         /\ (0 <= r < 256 -> v = if tf =? 0 then Z.clearbit r 4 else Z.setbit r 4))
    /\ (pin <= 15 ->
        forall c : Chip.regs, Chip.ok c ->
          exists (c' : Chip.regs) (on0 off0 : Z),
            final (run Chip.step (pca9685FullOff fd pin tf) c) = Some c'
            /\ Chip.readback fd pin c = Some (Some on0, Some off0)
            /\ Chip.readback fd pin c' =
               Some (Some on0,
                     Some (if tf =? 0 then Z.clearbit off0 12 else Z.setbit off0 12))
            /\ (forall a : Z, a <> baseReg pin + 3 -> c' a = c a)).
Proof.
  intros fd pin tf Hpin. pose proof (baseReg_range pin Hpin) as Hb. split.
  - intros S h s r. pose proof (pca9685FullOff_run h s fd pin tf) as Hrun.
    cbv zeta in Hrun. rewrite add_small in Hrun by lia. fold r in Hrun.
    eexists. split; [exact Hrun |]. destruct (tf =? 0); cbn [negb].
    + split; [apply testbit4_clear | apply land_EF_byte].
    + split; [apply testbit4_set | reflexivity].
  - intros Hle c Hok. apply pca9685FullOff_chip; [exact Hok | lia].
Qed.

Lemma pca9685FullOff_frame_witness :
  exists (c' : Chip.regs) (on0 off0 : Z),
    final (run Chip.step (pca9685FullOff 0 3 1) (fun _ => 0)) = Some c'
    /\ Chip.readback 0 3 (fun _ => 0) = Some (Some on0, Some off0)
    /\ Chip.readback 0 3 c' = Some (Some on0, Some (Z.setbit off0 12))
    /\ (forall a : Z, a <> baseReg 3 + 3 -> c' a = 0).
Proof.
  destruct (pca9685FullOff_frame 0 3 1 ltac:(lia)) as [_ H].
  apply (H ltac:(lia) (fun _ => 0)). intros a. lia.
Defined.

(** C4.  For every channel index [pin] in [0,16] and every transport:
    [pca9685FullOn] with a non-zero [tf] writes the on-register high byte
    (at [baseReg pin + 1]) back with bit 4 set, then reads the off-register
    high byte (at [baseReg pin + 3]) and writes it back with bit 4 cleared;
    with [tf = 0] it writes the on-register high byte back with bit 4 cleared
    and issues no request for the off register.  On the register file, for
    the channels 0..15 and every prior register content: after a non-zero [tf]
    the on word read back has bit 12 set and the off word has bit 12 clear;
    after [tf = 0] the on word has bit 12 clear and the off word is the one
    read back before. *)
Theorem pca9685FullOn_flags :
  forall fd pin tf : Z, 0 <= pin <= 16 ->
    (forall (S : Type) (h : handler S) (s : S),
       exists r r' : Z,
         issued (run h (pca9685FullOn fd pin tf) s) =
         Some (if tf =? 0
               then [ReadByteData fd (baseReg pin + 1);
                     WriteByteData fd (baseReg pin + 1) (Z.land r 0xEF)]
               else [ReadByteData fd (baseReg pin + 1);
                     WriteByteData fd (baseReg pin + 1) (Z.lor r 0x10);
                     ReadByteData fd (baseReg pin + 3);
                     WriteByteData fd (baseReg pin + 3) (Z.land r' 0xEF)])
         /\ r = fst (h (ReadByteData fd (baseReg pin + 1)) s)
         /\ Z.testbit (Z.land r 0xEF) 4 = false
         /\ Z.testbit (Z.lor r 0x10) 4 = true
         /\ Z.testbit (Z.land r' 0xEF) 4 = false)
    /\ (pin <= 15 ->
        forall c : Chip.regs, Chip.ok c ->
          exists (c' : Chip.regs) (on0 off0 on1 off1 : Z),
            final (run Chip.step (pca9685FullOn fd pin tf) c) = Some c'
            /\ Chip.readback fd pin c = Some (Some on0, Some off0)
            /\ Chip.readback fd pin c' = Some (Some on1, Some off1)
            /\ (tf <> 0 -> Z.testbit on1 12 = true /\ Z.testbit off1 12 = false)
            /\ (tf = 0 -> Z.testbit on1 12 = false /\ off1 = off0)).
Proof.
  intros fd pin tf Hpin. pose proof (baseReg_range pin Hpin) as Hb. split.
  - intros S h s. pose proof (pca9685FullOn_run h s fd pin tf) as Hrun.
    cbv zeta in Hrun. rewrite !add_small in Hrun by lia.
    eexists _, _. split; [exact Hrun |]. split; [reflexivity |].
    split; [apply testbit4_clear |]. split; [apply testbit4_set | apply testbit4_clear].
  - intros Hle c Hok. apply pca9685FullOn_chip; [exact Hok | lia].
Qed.

Lemma pca9685FullOn_flags_witness :
  exists (c' : Chip.regs) (on0 off0 on1 off1 : Z),
    final (run Chip.step (pca9685FullOn 0 3 1) (fun _ => 0)) = Some c'
    /\ Chip.readback 0 3 (fun _ => 0) = Some (Some on0, Some off0)
    /\ Chip.readback 0 3 c' = Some (Some on1, Some off1)
    /\ (1 <> 0 -> Z.testbit on1 12 = true /\ Z.testbit off1 12 = false)
    /\ (1 = 0 -> Z.testbit on1 12 = false /\ off1 = off0).
Proof.
  destruct (pca9685FullOn_flags 0 3 1 ltac:(lia)) as [_ H].
  apply (H ltac:(lia) (fun _ => 0)). intros a. lia.
Defined.

(** ** Capping the frequency *)

Lemma SFcompare_finite (m1 m2 : positive) (e1 e2 : Z) :
  SFcompare (S754_finite false m1 e1) (S754_finite false m2 e2)
  = Some (match e1 ?= e2 with
          | Lt => Lt
          | Gt => Gt
          | Eq => (m1 ?= m2)%positive
          end).
Proof. reflexivity. Qed.

(** The cap of line 74 on the three ranges of its argument. *)
Lemma capFreq_cases :
  forall f : Float32.float,
    (Float32.leb f (Float32.of_Z 40) = true -> capFreq f = Float32.of_Z 40)
    /\ (Float32.leb (Float32.of_Z 1000) f = true -> capFreq f = Float32.of_Z 1000)
    /\ (Float32.ltb (Float32.of_Z 40) f = true -> Float32.ltb f (Float32.of_Z 1000) = true ->
        capFreq f = f).
Proof.
  intros f. unfold capFreq, Float32.gtb, Float32.ltb, Float32.leb, SFltb, SFleb.
  change (Float32.of_Z 1000) with (S754_finite false 16384000 (-14)).
  change (Float32.of_Z 40) with (S754_finite false 10485760 (-18)).
  destruct f as [s | [|] | | [|] m e];
    try (cbn [SFcompare]; repeat split; intros; try discriminate; reflexivity).
  rewrite !SFcompare_finite.
  rewrite (Z.compare_antisym e (-18)), (Z.compare_antisym e (-14)).
  rewrite (Pos.compare_antisym m 10485760), (Pos.compare_antisym m 16384000).
  destruct (Z.compare_spec e (-18)) as [E1 | E1 | E1];
    destruct (Z.compare_spec e (-14)) as [E2 | E2 | E2];
    try (exfalso; lia); cbn [CompOpp].
  - destruct (Pos.compare_spec m 10485760) as [P | P | P]; cbn [CompOpp];
      repeat split; intros; try discriminate; subst; reflexivity.
  - repeat split; intros; try discriminate; reflexivity.
  - destruct (Pos.compare_spec m 16384000) as [P | P | P]; cbn [CompOpp];
      repeat split; intros; try discriminate; subst; reflexivity.
  - repeat split; intros; try discriminate; reflexivity.
  - repeat split; intros; try discriminate; reflexivity.
Qed.

(** ** Single-precision rounding at 24 digits *)

Lemma digits2_pos_spec (p : positive) :
  2 ^ (Zpos (digits2_pos p) - 1) <= Zpos p < 2 ^ Zpos (digits2_pos p).
Proof.
  induction p as [p IH | p IH |]; cbn [digits2_pos].
  - rewrite Pos2Z.inj_succ, (Pos2Z.inj_xI p).
    replace (Z.succ (Zpos (digits2_pos p)) - 1) with (Z.succ (Zpos (digits2_pos p) - 1)) by lia.
    rewrite !Z.pow_succ_r by lia. lia.
  - rewrite Pos2Z.inj_succ, (Pos2Z.inj_xO p).
    replace (Z.succ (Zpos (digits2_pos p)) - 1) with (Z.succ (Zpos (digits2_pos p) - 1)) by lia.
    rewrite !Z.pow_succ_r by lia. lia.
  - cbn. lia.
Qed.

Lemma digits2_pos_unique (p : positive) (k : Z) :
  2 ^ (k - 1) <= Zpos p < 2 ^ k -> Zpos (digits2_pos p) = k.
Proof.
  intros [Hlo Hhi]. pose proof (digits2_pos_spec p) as [Dlo Dhi].
  assert (k - 1 < Zpos (digits2_pos p)).
  { destruct (Z.lt_ge_cases (k - 1) 0) as [Hneg | Hnn]; [lia |].
    apply (Z.pow_lt_mono_r_iff 2); lia. }
  assert (Zpos (digits2_pos p) - 1 < k).
  { destruct (Z.lt_ge_cases k 0) as [Hneg | Hnn].
    - rewrite (Z.pow_neg_r 2 k) in Hhi by lia. lia.
    - apply (Z.pow_lt_mono_r_iff 2); lia. }
  lia.
Qed.

Lemma iter_shr_exact (k M : positive) :
  iter_pos shr_1 k (Build_shr_record (Zpos (Pos.iter xO M k)) false false)
  = Build_shr_record (Zpos M) false false.
Proof.
  revert M. induction k as [k IH | k IH |]; intros M; cbn [iter_pos Pos.iter].
  - cbn [shr_1 orb]. rewrite IH, IH. reflexivity.
  - rewrite IH, IH. reflexivity.
  - reflexivity.
Qed.

Lemma digits2_pos_iter (k M : positive) :
  Zpos (digits2_pos (Pos.iter xO M k)) = Zpos (digits2_pos M) + Zpos k.
Proof.
  revert M. induction k as [k IH | k IH |]; intros M; cbn [Pos.iter digits2_pos].
  - rewrite Pos2Z.inj_succ, IH, IH. lia.
  - rewrite IH, IH. lia.
  - lia.
Qed.

Lemma round_exact_shift (s : bool) (M k : positive) (E : Z) :
  digits2_pos M = 24%positive -> -149 <= E + Zpos k <= 104 ->
  binary_round_aux 24 128 s (Zpos (Pos.iter xO M k)) E loc_Exact
  = S754_finite s M (E + Zpos k).
Proof.
  intros HM HE. unfold binary_round_aux, shr_fexp, Zdigits2.
  rewrite digits2_pos_iter, HM.
  unfold fexp, emin. cbn [shr_record_of_loc].
  replace (Z.max (24 + Z.pos k + E - 24) (3 - 128 - 24) - E) with (Zpos k) by lia.
  cbn [shr]. rewrite iter_shr_exact. cbn [shr_m loc_of_shr_record round_nearest_even].
  rewrite HM.
  replace (Z.max (24 + (E + Z.pos k) - 24) (3 - 128 - 24) - (E + Z.pos k)) with 0 by lia.
  cbn [shr shr_m]. 
  replace (E + Z.pos k <=? 128 - 24) with true by (symmetry; apply Z.leb_le; lia).
  reflexivity.
Qed.

Lemma mul_4096 (m : positive) (e : Z) :
  digits2_pos m = 24%positive -> -130 <= e <= 90 ->
  Float32.mul (Float32.of_Z 4096) (S754_finite false m e) = S754_finite false m (e + 12).
Proof.
  intros Hm He.
  change (Float32.of_Z 4096) with (S754_finite false 8388608 (-11)).
  unfold Float32.mul, SFmul. cbn [xorb].
  change (8388608 * m)%positive with (Pos.iter xO m 23).
  rewrite round_exact_shift by (trivial; lia).
  f_equal. lia.
Qed.

Lemma loc_of_shr_record_of_loc (m : Z) (l : location) :
  loc_of_shr_record (shr_record_of_loc m l) = l.
Proof. destruct l as [| []]; reflexivity. Qed.

Lemma shr_m_of_loc (m : Z) (l : location) : shr_m (shr_record_of_loc m l) = m.
Proof. destruct l as [| []]; reflexivity. Qed.

Lemma round_nearest_even_bounds (m : Z) (l : location) :
  m <= round_nearest_even m l <= m + 1.
Proof.
  unfold round_nearest_even. destruct l as [| []]; try lia.
  destruct (Z.even m); lia.
Qed.

(** Rounding a 24-digit integer mantissa with a location. *)
Lemma round_24 (s : bool) (q : positive) (E : Z) (l : location) :
  digits2_pos q = 24%positive -> -149 <= E <= 103 ->
  exists (M : positive) (E' : Z),
    binary_round_aux 24 128 s (Zpos q) E l = S754_finite s M E'
    /\ digits2_pos M = 24%positive
    /\ ((E' = E /\ Zpos q <= Zpos M <= Zpos q + 1)
        \/ (E' = E + 1 /\ Zpos q / 2 <= Zpos M <= Zpos q / 2 + 1)).
Proof.
  intros Hq HE. unfold binary_round_aux, shr_fexp.
  cbn [Zdigits2]. rewrite Hq. unfold fexp, emin.
  replace (Z.max (24 + E - 24) (3 - 128 - 24) - E) with 0 by lia.
  cbn [shr]. rewrite loc_of_shr_record_of_loc, shr_m_of_loc.
  pose proof (round_nearest_even_bounds (Zpos q) l) as HR.
  pose proof (digits2_pos_spec q) as Hqb. rewrite Hq in Hqb.
  change (2 ^ (24 - 1)) with 8388608 in Hqb. change (2 ^ 24) with 16777216 in Hqb.
  destruct (round_nearest_even (Zpos q) l) as [| R | R] eqn:ER; try lia.
  destruct (Z.eq_dec (Zpos R) 16777216) as [Hc | Hc].
  - injection Hc as ->. change (Zdigits2 16777216) with 25.
    replace (Z.max (25 + E - 24) (3 - 128 - 24) - E) with 1 by lia.
    cbn [shr iter_pos shr_1 shr_record_of_loc shr_m orb].
    replace (E + 1 <=? 128 - 24) with true by (symmetry; apply Z.leb_le; lia).
    exists 8388608%positive, (E + 1). split; [reflexivity |]. split; [reflexivity |].
    right. split; [reflexivity |].
    assert (Zpos q = 16777215) as -> by lia. cbn. lia.
  - assert (HR24 : digits2_pos R = 24%positive).
    { apply Pos2Z.inj. apply digits2_pos_unique. cbn. lia. }
    cbn [Zdigits2]. rewrite HR24.
    replace (Z.max (24 + E - 24) (3 - 128 - 24) - E) with 0 by lia.
    cbn [shr shr_record_of_loc shr_m].
    replace (E <=? 128 - 24) with true by (symmetry; apply Z.leb_le; lia).
    exists R, E. split; [reflexivity |]. split; [exact HR24 |]. left. lia.
Qed.

(** Rounding a 25-digit integer mantissa with a location. *)
Lemma round_25 (s : bool) (q : positive) (E : Z) (l : location) :
  digits2_pos q = 25%positive -> Zpos q < 33554430 -> -149 <= E <= 103 ->
  exists (M : positive),
    binary_round_aux 24 128 s (Zpos q) E l = S754_finite s M (E + 1)
    /\ digits2_pos M = 24%positive
    /\ Zpos q / 2 <= Zpos M <= Zpos q / 2 + 1.
Proof.
  intros Hq Hlt HE. unfold binary_round_aux, shr_fexp.
  cbn [Zdigits2]. rewrite Hq. unfold fexp, emin.
  replace (Z.max (25 + E - 24) (3 - 128 - 24) - E) with 1 by lia.
  cbn [shr iter_pos].
  pose proof (digits2_pos_spec q) as Hqb. rewrite Hq in Hqb.
  change (2 ^ (25 - 1)) with 16777216 in Hqb. change (2 ^ 25) with 33554432 in Hqb.
  assert (Hh : exists h : positive,
             shr_m (shr_1 (shr_record_of_loc (Zpos q) l)) = Zpos h /\ Zpos h = Zpos q / 2).
  { destruct q as [h | h |].
    - exists h. split; [destruct l as [| []]; reflexivity |].
      rewrite Pos2Z.inj_xI. apply (Z.div_unique _ _ _ 1); lia.
    - exists h. split; [destruct l as [| []]; reflexivity |].
      rewrite Pos2Z.inj_xO. apply (Z.div_unique _ _ _ 0); lia.
    - lia. }
  destruct Hh as (h & Hm & Hh).
  set (rec := shr_1 (shr_record_of_loc (Zpos q) l)) in *.
  rewrite Hm.
  pose proof (round_nearest_even_bounds (Zpos h) (loc_of_shr_record rec)) as HR.
  assert (Hdiv : 8388608 <= Zpos q / 2 < 16777215).
  { split.
    - apply Z.div_le_lower_bound; lia.
    - apply Z.div_lt_upper_bound; lia. }
  destruct (round_nearest_even (Zpos h) (loc_of_shr_record rec)) as [| R | R] eqn:ER; try lia.
  assert (HR24 : digits2_pos R = 24%positive).
  { apply Pos2Z.inj. apply digits2_pos_unique. cbn. lia. }
  cbn [Zdigits2]. rewrite HR24.
  replace (Z.max (24 + (E + 1) - 24) (3 - 128 - 24) - (E + 1)) with 0 by lia.
  cbn [shr shr_record_of_loc shr_m].
  replace (E + 1 <=? 128 - 24) with true by (symmetry; apply Z.leb_le; lia).
  exists R. split; [reflexivity |]. split; [exact HR24 |]. lia.
Qed.


Lemma div_25M (m : positive) (E2 : Z) :
  digits2_pos m = 24%positive -> -100 <= E2 <= 100 ->
  exists (M : positive) (E' c : Z),
    Float32.div (Float32.of_Z 25000000) (S754_finite false m E2) = S754_finite false M E'
    /\ digits2_pos M = 24%positive
    /\ ((c = 1 /\ E' = -23 - E2) \/ (c = 2 /\ E' = -22 - E2))
    /\ scaledDividend / (c * Zpos m) <= Zpos M <= scaledDividend / (c * Zpos m) + 1.
Proof.
  intros Hm HE.
  change (Float32.of_Z 25000000) with (S754_finite false 12500000 1).
  unfold Float32.div, SFdiv, SFdiv_core_binary, Float32.prec, Float32.emax.
  cbn [xorb Zdigits2].
  change (digits2_pos 12500000) with 24%positive. rewrite Hm.
  unfold fexp, emin. cbv zeta.
  replace (Z.min (Z.max (24 + 1 - (24 + E2) - 24) (3 - 128 - 24)) (1 - E2)) with (-23 - E2) by lia.
  replace (1 - E2 - (-23 - E2)) with 24 by lia.
  cbv iota beta. change (Z.shiftl 12500000 24) with scaledDividend.
  pose proof (digits2_pos_spec m) as Hmb. rewrite Hm in Hmb.
  change (2 ^ (24 - 1)) with 8388608 in Hmb. change (2 ^ 24) with 16777216 in Hmb.
  pose proof (Z_div_mod scaledDividend (Zpos m) ltac:(lia)) as Hdm.
  assert (Hq : fst (Z.div_eucl scaledDividend (Zpos m)) = scaledDividend / Zpos m) by reflexivity.
  destruct (Z.div_eucl scaledDividend (Zpos m)) as [q r]. cbn [fst] in Hq.
  destruct Hdm as [Hdm Hr].
  assert (Hqlo : 12500000 <= q).
  { rewrite Hq. transitivity (scaledDividend / 16777215); [discriminate |].
    apply Z.div_le_compat_l; [unfold scaledDividend |]; lia. }
  assert (Hqhi : q <= 25000000).
  { rewrite Hq. transitivity (scaledDividend / 8388608); [| discriminate].
    apply Z.div_le_compat_l; [unfold scaledDividend |]; lia. }
  destruct q as [| q | q]; try lia.
  destruct (Z.lt_ge_cases (Zpos q) 16777216) as [H24 | H25].
  - assert (Hd : digits2_pos q = 24%positive).
    { apply Pos2Z.inj, digits2_pos_unique. cbn. lia. }
    destruct (round_24 false q (-23 - E2) (new_location (Zpos m) r) Hd ltac:(lia))
      as (M & E' & HM & HMd & Hcase).
    destruct Hcase as [[-> HMb] | [-> HMb]].
    + exists M, (-23 - E2), 1. split; [exact HM |]. split; [exact HMd |].
      split; [left; split; reflexivity |]. rewrite Z.mul_1_l, <- Hq. exact HMb.
    + exists M, (-23 - E2 + 1), 2. split; [exact HM |]. split; [exact HMd |].
      split; [right; split; [reflexivity | lia] |].
      rewrite (Z.mul_comm 2), <- Z.div_div, <- Hq by lia. exact HMb.
  - assert (Hd : digits2_pos q = 25%positive).
    { apply Pos2Z.inj, digits2_pos_unique. cbn. lia. }
    destruct (round_25 false q (-23 - E2) (new_location (Zpos m) r) Hd ltac:(lia) ltac:(lia))
      as (M & HM & HMd & HMb).
    exists M, (-23 - E2 + 1), 2. split; [exact HM |]. split; [exact HMd |].
    split; [right; split; [reflexivity | lia] |].
    rewrite (Z.mul_comm 2), <- Z.div_div, <- Hq by lia. exact HMb.
Qed.

Lemma pos_iter_xO (k p : positive) :
  Zpos (Pos.iter xO p k) = Zpos p * 2 ^ Zpos k.
Proof.
  revert p. induction k as [k IH | k IH |]; intros p; cbn [Pos.iter].
  - rewrite (Pos2Z.inj_xO (Pos.iter xO (Pos.iter xO p k) k)), IH, IH.
    rewrite (Pos2Z.inj_xI k).
    replace (2 * Z.pos k + 1) with (Z.pos k + Z.pos k + 1) by lia.
    rewrite !Z.pow_add_r by lia. change (2 ^ 1) with 2. ring.
  - rewrite IH, IH. rewrite (Pos2Z.inj_xO k).
    replace (2 * Z.pos k) with (Z.pos k + Z.pos k) by lia.
    rewrite Z.pow_add_r by lia. ring.
  - rewrite Pos2Z.inj_xO. change (2 ^ 1) with 2. ring.
Qed.

Lemma shiftl_neg_div (a n : Z) : 0 <= n -> Z.shiftl a (- n) = a / 2 ^ n.
Proof.
  intros Hn. rewrite <- Z.shiftr_opp_r, Z.opp_involutive. apply Z.shiftr_div_pow2, Hn.
Qed.

Lemma sub_half_to_int (M : positive) (E : Z) :
  digits2_pos M = 24%positive -> -21 <= E <= -16 ->
  Float32.to_int (Float32.sub (S754_finite false M E) Float32.half)
  = Some ((Zpos M - 2 ^ (- E - 1)) / 2 ^ (- E)).
Proof.
  intros HM HE.
  pose proof (digits2_pos_spec M) as HMb. rewrite HM in HMb.
  change (2 ^ (24 - 1)) with 8388608 in HMb. change (2 ^ 24) with 16777216 in HMb.
  assert (Hd : exists d : positive, E = -24 + Zpos d /\ 3 <= Zpos d <= 8).
  { exists (Z.to_pos (E + 24)). rewrite Z2Pos.id by lia. lia. }
  destruct Hd as (d & -> & Hd).
  replace (- (-24 + Zpos d) - 1) with (23 - Zpos d) by lia.
  replace (- (-24 + Zpos d)) with (24 - Zpos d) by lia.
  assert (Hc : 4 <= 2 ^ (23 - Zpos d) <= 1048576).
  { split.
    - change 4 with (2 ^ 2). apply Z.pow_le_mono_r; lia.
    - change 1048576 with (2 ^ 20). apply Z.pow_le_mono_r; lia. }
  assert (Hw : 8 <= 2 ^ (24 - Zpos d) <= 2097152).
  { split.
    - change 8 with (2 ^ 3). apply Z.pow_le_mono_r; lia.
    - change 2097152 with (2 ^ 21). apply Z.pow_le_mono_r; lia. }
  assert (Hp : exists P : positive, Zpos P = Zpos M - 2 ^ (23 - Zpos d)).
  { exists (Z.to_pos (Zpos M - 2 ^ (23 - Zpos d))). rewrite Z2Pos.id by lia. reflexivity. }
  destruct Hp as (P & HP). rewrite <- HP.
  change Float32.half with (S754_finite false 8388608 (-24)).
  unfold Float32.sub, SFsub, Float32.prec, Float32.emax.
  replace (Z.min (-24 + Zpos d) (-24)) with (-24) by lia.
  assert (Hal : shl_align M (-24 + Zpos d) (-24) = (Pos.iter xO M d, -24)).
  { unfold shl_align. replace (-24 - (-24 + Zpos d)) with (Zneg d) by lia. reflexivity. }
  rewrite Hal. change (shl_align 8388608 (-24) (-24)) with (8388608%positive, -24).
  cbn [fst cond_Zopp].
  assert (HD : Zpos (Pos.iter xO M d) - 8388608 = Zpos (Pos.iter xO P d)).
  { rewrite !pos_iter_xO, HP, Z.mul_sub_distr_r, <- Z.pow_add_r by lia.
    replace (23 - Zpos d + Zpos d) with 23 by lia. reflexivity. }
  rewrite HD. cbn [binary_normalize]. unfold binary_round.
  rewrite digits2_pos_iter.
  assert (HPd : Zpos (digits2_pos P) = 24 \/ Zpos (digits2_pos P) = 23).
  { destruct (Z.lt_ge_cases (Zpos P) 8388608) as [Hlt | Hge].
    - right. apply digits2_pos_unique. change (2 ^ (23 - 1)) with 4194304.
      change (2 ^ 23) with 8388608. lia.
    - left. apply digits2_pos_unique. change (2 ^ (24 - 1)) with 8388608.
      change (2 ^ 24) with 16777216. lia. }
  assert (Hal2 : shl_align (Pos.iter xO P d) (-24)
                   (fexp 24 128 (Zpos (digits2_pos P) + Zpos d + -24))
                 = (Pos.iter xO P d, -24)).
  { unfold shl_align, fexp, emin.
    destruct (Z.max (Z.pos (digits2_pos P) + Z.pos d + -24 - 24) (3 - 128 - 24) - -24)
      eqn:Ez; try reflexivity. lia. }
  rewrite Hal2.
  destruct HPd as [HPd | HPd].
  - assert (HP24 : digits2_pos P = 24%positive) by (apply Pos2Z.inj; exact HPd).
    rewrite round_exact_shift by (trivial; lia).
    unfold Float32.to_int.
    replace (-24 + Zpos d) with (- (24 - Zpos d)) by lia.
    rewrite shiftl_neg_div by lia.
    assert (Hv : 0 <= Zpos P / 2 ^ (24 - Zpos d) <= Zpos P).
    { split; [apply Z.div_pos; lia |].
      apply Z.div_le_upper_bound; [lia |]. nia. }
    unfold Int32.in_range, Int32.min_signed, Int32.max_signed, Int32.half_modulus.
    replace (- 2 ^ 31 <=? Zpos P / 2 ^ (24 - Zpos d)) with true
      by (symmetry; apply Z.leb_le; lia).
    replace (Zpos P / 2 ^ (24 - Zpos d) <=? 2 ^ 31 - 1) with true
      by (symmetry; apply Z.leb_le; change (2 ^ 31) with 2147483648; lia).
    reflexivity.
  - assert (HP24 : digits2_pos P~0 = 24%positive).
    { apply Pos2Z.inj. cbn [digits2_pos]. rewrite Pos2Z.inj_succ, HPd. reflexivity. }
    assert (Hk : exists k : positive, d = Pos.succ k).
    { exists (Pos.pred d). rewrite Pos.succ_pred; [reflexivity | lia]. }
    destruct Hk as (k & ->). rewrite Pos.iter_succ_r.
    rewrite Pos2Z.inj_succ in *.
    rewrite round_exact_shift by (trivial; lia).
    unfold Float32.to_int.
    replace (-24 + Zpos k) with (- (24 - Zpos k)) by lia.
    rewrite shiftl_neg_div by lia.
    replace (24 - Zpos k) with (Z.succ (24 - Z.succ (Zpos k))) by lia.
    rewrite Z.pow_succ_r, (Pos2Z.inj_xO P), Z.div_mul_cancel_l by lia.
    assert (Hv : 0 <= Zpos P / 2 ^ (24 - Z.succ (Zpos k)) <= Zpos P).
    { split; [apply Z.div_pos; lia |].
      apply Z.div_le_upper_bound; [lia |]. nia. }
    unfold Int32.in_range, Int32.min_signed, Int32.max_signed, Int32.half_modulus.
    replace (- 2 ^ 31 <=? Zpos P / 2 ^ (24 - Z.succ (Zpos k))) with true
      by (symmetry; apply Z.leb_le; lia).
    replace (Zpos P / 2 ^ (24 - Z.succ (Zpos k)) <=? 2 ^ 31 - 1) with true
      by (symmetry; apply Z.leb_le; change (2 ^ 31) with 2147483648; lia).
    reflexivity.
Qed.

Lemma valid_digits (s : bool) (m : positive) (e : Z) :
  Float32.valid (S754_finite s m e) = true -> -125 <= e -> digits2_pos m = 24%positive.
Proof.
  unfold Float32.valid, valid_binary, bounded, canonical_mantissa, fexp, emin,
    Float32.prec, Float32.emax.
  intros H He. apply andb_prop in H. destruct H as [H _].
  apply Z.eqb_eq in H. apply Pos2Z.inj. lia.
Qed.

Lemma capFreq_range (f : Float32.float) :
  Float32.valid f = true -> Float32.is_nan f = false ->
  exists (m : positive) (e : Z),
    capFreq f = S754_finite false m e
    /\ digits2_pos m = 24%positive /\ -18 <= e <= -14.
Proof.
  intros Hv Hn. unfold capFreq, Float32.gtb, Float32.ltb, SFltb.
  change (Float32.of_Z 1000) with (S754_finite false 16384000 (-14)).
  change (Float32.of_Z 40) with (S754_finite false 10485760 (-18)).
  assert (H40 : exists (m : positive) (e : Z),
             S754_finite false 10485760 (-18) = S754_finite false m e
             /\ digits2_pos m = 24%positive /\ -18 <= e <= -14).
  { eexists _, _. split; [reflexivity |]. split; [reflexivity | lia]. }
  assert (H1000 : exists (m : positive) (e : Z),
             S754_finite false 16384000 (-14) = S754_finite false m e
             /\ digits2_pos m = 24%positive /\ -18 <= e <= -14).
  { eexists _, _. split; [reflexivity |]. split; [reflexivity | lia]. }
  destruct f as [s | s | | s m e].
  - exact H40.
  - destruct s; [exact H40 | exact H1000].
  - discriminate Hn.
  - destruct s; [exact H40 |].
    unfold SFcompare.
    destruct (Z.compare_spec (-14) e) as [He | He | He].
    + subst e.
      destruct (Pos.compare_cont Eq 16384000 m); [| exact H1000 |];
        (change (-14 ?= -18) with Gt; cbv iota;
         exists m, (-14); split; [reflexivity |];
         split; [apply (valid_digits false m (-14) Hv); lia | lia]).
    + exact H1000.
    + destruct (Z.compare_spec e (-18)) as [He' | He' | He'].
      * subst e.
        destruct (Pos.compare_cont Eq m 10485760); [| exact H40 |];
          (exists m, (-18); split; [reflexivity |];
           split; [apply (valid_digits false m (-18) Hv); lia | lia]).
      * exact H40.
      * exists m, e. split; [reflexivity |].
        split; [apply (valid_digits false m e Hv); lia | lia].
Qed.

Lemma trunc_bracket (A B v M : Z) :
  0 < B -> 0 < v -> A / B <= M <= A / B + 1 ->
  (A - B * v) / (B * (2 * v)) <= (M - v) / (2 * v) <= (A - B * v) / (B * (2 * v)) + 1.
Proof.
  intros HB Hv HM.
  set (w := 2 * v) in *. assert (Hw : 0 < w) by lia.
  set (t := (A - B * v) / (B * w)). set (p := (M - v) / w).
  assert (HBw : 0 < B * w) by nia.
  pose proof (Z.mul_div_le (A - B * v) (B * w) HBw) as Ht1.
  pose proof (Z.mul_succ_div_gt (A - B * v) (B * w) HBw) as Ht2.
  pose proof (Z.mul_div_le (M - v) w Hw) as Hp1.
  pose proof (Z.mul_succ_div_gt (M - v) w Hw) as Hp2.
  pose proof (Z.mul_div_le A B HB) as Hq1.
  pose proof (Z.mul_succ_div_gt A B HB) as Hq2.
  fold t in Ht1, Ht2. fold p in Hp1, Hp2.
  set (q := A / B) in *.
  split.
  - apply Z.div_le_lower_bound; [exact Hw |].
    (* (t*w + v) * B <= A, hence t*w + v <= q <= M *)
    assert (H : t * w + v <= q).
    { apply Z.div_le_lower_bound; [exact HB |]. nia. }
    nia.
  - (* (p*w + v - 1) <= q, so (p*w - 1) * B <= A - B*v < (t+1)*B*w *)
    assert (H1 : B * (w * p + v - 1) <= A) by nia.
    assert (H2 : B * (w * p - 1) < B * (w * (t + 1))) by nia.
    assert (H3 : w * p - 1 < w * (t + 1)) by nia.
    nia.
Qed.

Lemma prescaleExact_Z (m : positive) (e : Z) :
  Zpos m < 16777216 -> -18 <= e <= -14 ->
  prescaleExact (S754_finite false m e)
  = (scaledDividend - Zpos m * 2 ^ (34 + e)) / (Zpos m * 2 ^ (35 + e)).
Proof.
  intros Hm He. destruct e as [| e | j]; try lia.
  unfold prescaleExact, Float32.to_Q, Qtrunc.
  unfold Qminus, Qdiv, Qmult, Qinv, Qplus, Qopp, Qle_bool, Qfloor.
  cbn [Qnum Qden].
  change (4096 * Zpos m) with (Zpos (4096 * m)). cbv iota beta. cbn [Qnum Qden].
  assert (Hj : Zpos j = 14 \/ Zpos j = 15 \/ Zpos j = 16 \/ Zpos j = 17 \/ Zpos j = 18) by lia.
  assert (Hjj : j = 14%positive \/ j = 15%positive \/ j = 16%positive
                \/ j = 17%positive \/ j = 18%positive).
  { destruct Hj as [H | [H | [H | [H | H]]]]; apply Pos2Z.inj in H; auto. }
  rewrite !Pos2Z.inj_mul.
  destruct Hjj as [-> | [-> | [-> | [-> | ->]]]].
  all: match goal with
       | |- context [Z.pos (2 ^ ?k)] =>
           let c := eval vm_compute in (Z.pos (2 ^ k)) in
           change (Z.pos (2 ^ k)) with c
       end.
  all: match goal with
       | |- context [2 ^ (34 + ?x)] =>
           let c := eval vm_compute in (2 ^ (34 + x)) in
           change (2 ^ (34 + x)) with c
       end.
  all: match goal with
       | |- context [2 ^ (35 + ?x)] =>
           let c := eval vm_compute in (2 ^ (35 + x)) in
           change (2 ^ (35 + x)) with c
       end.
  all: unfold scaledDividend.
  all: match goal with
       | |- (if ?b then _ else _) = _ =>
           replace b with true by (symmetry; apply Z.leb_le; lia)
       end.
  - rewrite <- (Z.div_mul_cancel_l _ _ 256) by lia. f_equal; lia.
  - rewrite <- (Z.div_mul_cancel_l _ _ 128) by lia. f_equal; lia.
  - rewrite <- (Z.div_mul_cancel_l _ _ 64) by lia. f_equal; lia.
  - rewrite <- (Z.div_mul_cancel_l _ _ 32) by lia. f_equal; lia.
  - rewrite <- (Z.div_mul_cancel_l _ _ 16) by lia. f_equal; lia.
Qed.


(** ** The prescale *)

Lemma prescale_bracket (m : positive) (e : Z) :
  digits2_pos m = 24%positive -> -18 <= e <= -14 ->
  exists p : Z,
    prescaleOf (S754_finite false m e) = Some p
    /\ prescaleExact (S754_finite false m e) <= p <= prescaleExact (S754_finite false m e) + 1.
Proof.
  intros Hm He.
  pose proof (digits2_pos_spec m) as Hmb. rewrite Hm in Hmb.
  change (2 ^ (24 - 1)) with 8388608 in Hmb. change (2 ^ 24) with 16777216 in Hmb.
  unfold prescaleOf. rewrite mul_4096 by (trivial; lia).
  destruct (div_25M m (e + 12) Hm ltac:(lia)) as (M & E' & c & HD & HMd & Hc & HMb).
  rewrite HD, sub_half_to_int by (trivial; lia).
  eexists. split; [reflexivity |].
  rewrite prescaleExact_Z by lia.
  destruct Hc as [[-> ->] | [-> ->]].
  - replace (- (-23 - (e + 12)) - 1) with (34 + e) by lia.
    replace (- (-23 - (e + 12))) with (Z.succ (34 + e)) by lia.
    replace (35 + e) with (Z.succ (34 + e)) by lia.
    rewrite Z.pow_succ_r by lia.
    rewrite Z.mul_1_l in HMb.
    apply trunc_bracket; [lia | apply Z.pow_pos_nonneg; lia | exact HMb].
  - replace (- (-22 - (e + 12)) - 1) with (33 + e) by lia.
    replace (- (-22 - (e + 12))) with (Z.succ (33 + e)) by lia.
    replace (35 + e) with (Z.succ (Z.succ (33 + e))) by lia.
    replace (34 + e) with (Z.succ (33 + e)) by lia.
    rewrite !Z.pow_succ_r by lia.
    replace (Z.pos m * (2 * 2 ^ (33 + e))) with (2 * Z.pos m * 2 ^ (33 + e)) by ring.
    replace (Z.pos m * (2 * (2 * 2 ^ (33 + e))))
      with (2 * Z.pos m * (2 * 2 ^ (33 + e))) by ring.
    apply trunc_bracket; [lia | apply Z.pow_pos_nonneg; lia | exact HMb].
Qed.

Lemma prescale_defined (f : Float32.float) :
  Float32.valid f = true -> Float32.is_nan f = false ->
  exists p : Z,
    prescaleOf (capFreq f) = Some p
    /\ prescaleExact (capFreq f) <= p <= prescaleExact (capFreq f) + 1.
Proof.
  intros Hv Hn. destruct (capFreq_range f Hv Hn) as (m & e & -> & Hm & He).
  apply prescale_bracket; assumption.
Qed.

Lemma agreesAt_all : forallb agreesAt (map Z.of_nat (seq 40 961)) = true.
Proof. vm_compute. reflexivity. Qed.

(** C1, amended.  For every single-precision frequency [f] other than NaN,
    the prescale that [pca9685PWMFreq] writes to the PRESCALE register is
    [(int)(25000000.0f / (4096 * clamp f) - 0.5f)] evaluated in single
    precision; it is defined and equals [t] or [t + 1], where [t] is the
    truncation toward zero of the exact value of
    [25000000 / (4096 * clamp f) - 1/2]; at every integer frequency in
    [40, 1000] it equals [t]; at clamped frequency 50 it is 121. *)
Theorem prescale_formula :
  (forall f : Float32.float,
     Float32.valid f = true -> Float32.is_nan f = false ->
     exists p : Z,
       prescaleOf (capFreq f) = Some p
       /\ (forall (S : Type) (h : handler S) (s : S) (fd : Z),
            exists l : list request,
              issued (run h (pca9685PWMFreq fd f) s) = Some l
              /\ nth_error l 2 = Some (WriteByteData fd PCA9685_PRESCALE p))
       /\ prescaleExact (capFreq f) <= p <= prescaleExact (capFreq f) + 1)
  /\ (forall n : Z, 40 <= n <= 1000 ->
        prescaleOf (capFreq (Float32.of_Z n))
        = Some (prescaleExact (capFreq (Float32.of_Z n))))
  /\ prescaleOf (capFreq (Float32.of_Z 50)) = Some 121.
Proof.
  split; [| split].
  - intros f Hv Hn. destruct (prescale_defined f Hv Hn) as (p & Hp & Hb).
    exists p. split; [exact Hp |]. split; [| exact Hb].
    intros S h s fd. destruct (pca9685PWMFreq_run h s fd f p Hp) as [Hi _].
    eexists. split; [exact Hi | reflexivity].
  - intros n Hn.
    pose proof (forall_range agreesAt 40 961 agreesAt_all n ltac:(lia)) as H.
    unfold agreesAt in H.
    destruct (prescaleOf (capFreq (Float32.of_Z n))) as [p |]; [| discriminate H].
    apply Z.eqb_eq in H. rewrite H. reflexivity.
  - vm_compute. reflexivity.
Qed.

Lemma prescale_formula_witness :
  exists p : Z,
    prescaleOf (capFreq (Float32.of_Z 50)) = Some p
    /\ prescaleExact (capFreq (Float32.of_Z 50)) <= p
       <= prescaleExact (capFreq (Float32.of_Z 50)) + 1.
Proof.
  destruct prescale_formula as [H _].
  destruct (H (Float32.of_Z 50) eq_refl eq_refl) as (p & Hp & _ & Hb).
  exists p. split; assumption.
Defined.

Lemma prescale_counterexample :
  prescaleOf (capFreq (Float32.of_Z 50)) <> Some 120
  /\ Float32.valid (S754_finite false 11764706 (-14)) = true
  /\ prescaleOf (capFreq (S754_finite false 11764706 (-14)))
     <> Some (prescaleExact (capFreq (S754_finite false 11764706 (-14)))).
Proof.
  split; [| split].
  - vm_compute. discriminate.
  - reflexivity.
  - vm_compute. discriminate.
Qed.

(** ** The frequency-setting sequence *)

(** C8.  For every transport and every frequency that is not NaN,
    [pca9685PWMFreq] issues exactly these requests in this order: read
    MODE1, whose answer [r] gives [settings = r & 0x7F] (which is [r] with bit
    7 cleared when [r] is a byte); write [settings] with bit 4 set to MODE1;
    write the computed prescale to PRESCALE (0xFE); write [settings] with bit
    4 cleared to MODE1; sleep 1000 microseconds; write that wake value with
    bit 7 set to MODE1. *)
Theorem pca9685PWMFreq_sequence :
  forall (S : Type) (h : handler S) (s : S) (fd : Z) (f : Float32.float),
    Float32.valid f = true -> Float32.is_nan f = false ->
    let r := fst (h (ReadByteData fd PCA9685_MODE1) s) in
    let settings := Z.land r 0x7F in
    (0 <= r < 256 -> settings = Z.clearbit r 7)
    /\ exists prescale : Z,
         prescaleOf (capFreq f) = Some prescale
         /\ issued (run h (pca9685PWMFreq fd f) s) =
            Some [ReadByteData fd PCA9685_MODE1;
                  WriteByteData fd PCA9685_MODE1 (Z.setbit settings 4);
                  WriteByteData fd PCA9685_PRESCALE prescale;
                  WriteByteData fd PCA9685_MODE1 (Z.clearbit settings 4);
                  USleep 1000;
                  WriteByteData fd PCA9685_MODE1 (Z.setbit (Z.clearbit settings 4) 7)].
Proof.
  intros S h s fd f Hv Hn r settings. split; [apply land_7F_byte |].
  destruct (prescale_defined f Hv Hn) as (p & Hp & _).
  exists p. split; [exact Hp |].
  destruct (pca9685PWMFreq_run h s fd f p Hp) as [Hi _]. rewrite Hi.
  fold r. fold settings.
  pose proof (land_7F_range r) as Hs. fold settings in Hs.
  rewrite (land_EF_byte settings) by lia.
  reflexivity.
Qed.


Lemma pca9685PWMFreq_sequence_witness :
  exists prescale : Z,
    prescaleOf (capFreq (Float32.of_Z 50)) = Some prescale
    /\ issued (run Chip.step (pca9685PWMFreq 0 (Float32.of_Z 50)) (fun _ => 0)) =
       Some [ReadByteData 0 PCA9685_MODE1;
             WriteByteData 0 PCA9685_MODE1 (Z.setbit (Z.land 0 0x7F) 4);
             WriteByteData 0 PCA9685_PRESCALE prescale;
             WriteByteData 0 PCA9685_MODE1 (Z.clearbit (Z.land 0 0x7F) 4);
             USleep 1000;
             WriteByteData 0 PCA9685_MODE1 (Z.setbit (Z.clearbit (Z.land 0 0x7F) 4) 7)].
Proof.
  destruct (pca9685PWMFreq_sequence _ Chip.step (fun _ => 0) 0 (Float32.of_Z 50)
              eq_refl eq_refl) as [_ H].
  exact H.
Defined.

Lemma leb_not_nan_l (f g : Float32.float) :
  Float32.leb f g = true -> Float32.is_nan f = false.
Proof. destruct f; [reflexivity | reflexivity | discriminate | reflexivity]. Qed.

Lemma leb_not_nan_r (f g : Float32.float) :
  Float32.leb g f = true -> Float32.is_nan f = false.
Proof.
  destruct f; [reflexivity | reflexivity | | reflexivity].
  destruct g; discriminate.
Qed.

Lemma ltb_not_nan_l (f g : Float32.float) :
  Float32.ltb f g = true -> Float32.is_nan f = false.
Proof. destruct f; [reflexivity | reflexivity | discriminate | reflexivity]. Qed.

Lemma pca9685PWMFreq_uses {S : Type} (h : handler S) (s : S) (fd : Z)
      (f x : Float32.float) :
  Float32.valid f = true -> Float32.is_nan f = false -> capFreq f = x ->
  capFreq f = x
  /\ exists (p : Z) (l : list request),
       prescaleOf x = Some p
       /\ issued (run h (pca9685PWMFreq fd f) s) = Some l
       /\ nth_error l 2 = Some (WriteByteData fd PCA9685_PRESCALE p).
Proof.
  intros Hv Hn Hx. split; [exact Hx |].
  destruct (prescale_defined f Hv Hn) as (p & Hp & _).
  destruct (pca9685PWMFreq_run h s fd f p Hp) as [Hi _].
  exists p. eexists. rewrite <- Hx. split; [exact Hp |]. split; [exact Hi | reflexivity].
Qed.

(** C6.  The frequency [pca9685PWMFreq] uses is clamped to [40, 1000]: for
    every single-precision [f <= 40] the capped frequency of line 74 is
    exactly 40 and the prescale the routine writes to the PRESCALE register
    is the one line 79 computes from 40; for every [f >= 1000] it is exactly
    1000 and the prescale written is the one computed from 1000; for every
    [f] with [40 < f < 1000] it is [f] itself and the prescale written is the
    one computed from [f]. *)
Theorem pca9685PWMFreq_clamps :
  forall (S : Type) (h : handler S) (s : S) (fd : Z) (f : Float32.float),
    Float32.valid f = true ->
    (Float32.leb f (Float32.of_Z 40) = true ->
     capFreq f = Float32.of_Z 40
     /\ exists (p : Z) (l : list request),
          prescaleOf (Float32.of_Z 40) = Some p
          /\ issued (run h (pca9685PWMFreq fd f) s) = Some l
          /\ nth_error l 2 = Some (WriteByteData fd PCA9685_PRESCALE p))
    /\ (Float32.leb (Float32.of_Z 1000) f = true ->
        capFreq f = Float32.of_Z 1000
        /\ exists (p : Z) (l : list request),
             prescaleOf (Float32.of_Z 1000) = Some p
             /\ issued (run h (pca9685PWMFreq fd f) s) = Some l
             /\ nth_error l 2 = Some (WriteByteData fd PCA9685_PRESCALE p))
    /\ (Float32.ltb (Float32.of_Z 40) f = true ->
        Float32.ltb f (Float32.of_Z 1000) = true ->
        capFreq f = f
        /\ exists (p : Z) (l : list request),
             prescaleOf f = Some p
             /\ issued (run h (pca9685PWMFreq fd f) s) = Some l
             /\ nth_error l 2 = Some (WriteByteData fd PCA9685_PRESCALE p)).
Proof.
  intros S h s fd f Hv. destruct (capFreq_cases f) as (Hlow & Hhigh & Hmid).
  split; [| split].
  - intros H. apply pca9685PWMFreq_uses;
      [exact Hv | exact (leb_not_nan_l _ _ H) | exact (Hlow H)].
  - intros H. apply pca9685PWMFreq_uses;
      [exact Hv | exact (leb_not_nan_r _ _ H) | exact (Hhigh H)].
  - intros H1 H2. apply pca9685PWMFreq_uses;
      [exact Hv | exact (ltb_not_nan_l _ _ H2) | exact (Hmid H1 H2)].
Qed.

Lemma pca9685PWMFreq_clamps_witness :
  capFreq (Float32.of_Z 30) = Float32.of_Z 40
  /\ exists (p : Z) (l : list request),
       prescaleOf (Float32.of_Z 40) = Some p
       /\ issued (run Chip.step (pca9685PWMFreq 0 (Float32.of_Z 30)) (fun _ => 0)) = Some l
       /\ nth_error l 2 = Some (WriteByteData 0 PCA9685_PRESCALE p).
Proof.
  destruct (pca9685PWMFreq_clamps _ Chip.step (fun _ => 0) 0 (Float32.of_Z 30) eq_refl)
    as [H _].
  apply H. reflexivity.
Defined.

(** ** Setup *)

Lemma pca9685Setup_run {S : Type} (h : handler S) (s : S) (handle : Z) (f : Float32.float) :
  let r := fst (h (ReadByteData handle PCA9685_MODE1) s) in
  let s1 := snd (h (ReadByteData handle PCA9685_MODE1) s) in
  let autoInc := Z.lor (Z.land r 0x7F) 0x20 in
  let s2 := snd (h (WriteByteData handle PCA9685_MODE1 autoInc) s1) in
  Float32.valid f = true ->
  exists rest : list request,
    issued (run h (pca9685Setup handle f) s) =
    Some (ReadByteData handle PCA9685_MODE1
            :: WriteByteData handle PCA9685_MODE1 autoInc :: rest)
    /\ result (run h (pca9685Setup handle f) s) = Some 1
    /\ (if Float32.gtb f (Float32.of_Z 0)
        then issued (run h (pca9685PWMFreq handle f) s2) = Some rest /\ rest <> []
        else rest = []).
Proof.
  intros r s1 autoInc s2 Hv. unfold pca9685Setup, i2cReadByteData, i2cWriteByteData.
  cbn [bind]. rewrite !run_call. fold r s1. fold autoInc. fold s2.
  rewrite run_bind.
  destruct (Float32.gtb f (Float32.of_Z 0)) eqn:Hgt.
  - destruct (prescale_defined f Hv (gtb_zero_not_nan f Hgt)) as (p & Hp & _).
    destruct (pca9685PWMFreq_run h s2 handle f p Hp) as [Hi Hr].
    destruct (run h (pca9685PWMFreq handle f) s2) as [[[t a] s3] |]; [| discriminate Hi].
    cbn [run issued result requests map fst] in *.
    injection Hi as Hi. exists (requests t). split; [rewrite app_nil_r; reflexivity |].
    split; [reflexivity |]. split; [reflexivity |]. rewrite Hi. discriminate.
  - cbn [run issued result requests map fst app]. exists []. repeat split.
Qed.

(** C10.  For every transport (hence every value read from MODE1), every
    handle and every single-precision frequency, zero, negative, infinite and
    NaN included, [pca9685Setup] runs to completion and returns 1. *)
Theorem pca9685Setup_returns_1 :
  forall (S : Type) (h : handler S) (s : S) (handle : Z) (f : Float32.float),
    Float32.valid f = true ->
    result (run h (pca9685Setup handle f) s) = Some 1.
Proof.
  intros S h s handle f Hv.
  destruct (pca9685Setup_run h s handle f Hv) as (rest & _ & Hr & _). exact Hr.
Qed.


Lemma pca9685Setup_returns_1_witness :
  result (run Chip.step (pca9685Setup 0 (Float32.of_Z 50)) (fun _ => 0)) = Some 1.
Proof. apply (pca9685Setup_returns_1 _ Chip.step (fun _ => 0) 0 (Float32.of_Z 50)). reflexivity. Defined.

(** C2, amended.  For every transport, [pca9685Setup] reads MODE1, writes
    back to MODE1 the value read with bit 7 (restart) masked off and bit 5
    (auto-increment) set, that is [(r & 0x7F) | 0x20], and then issues the
    requests of [pca9685PWMFreq] if the frequency is greater than 0 and no
    further request otherwise. *)
Theorem pca9685Setup_requests :
  forall (S : Type) (h : handler S) (s : S) (handle : Z) (f : Float32.float),
    Float32.valid f = true ->
    let r := fst (h (ReadByteData handle PCA9685_MODE1) s) in
    let s1 := snd (h (ReadByteData handle PCA9685_MODE1) s) in
    let autoInc := Z.lor (Z.land r 0x7F) 0x20 in
    let s2 := snd (h (WriteByteData handle PCA9685_MODE1 autoInc) s1) in
    (0 <= r < 256 -> autoInc = Z.setbit (Z.clearbit r 7) 5)
    /\ exists rest : list request,
         issued (run h (pca9685Setup handle f) s) =
         Some (ReadByteData handle PCA9685_MODE1
                 :: WriteByteData handle PCA9685_MODE1 autoInc :: rest)
         /\ (if Float32.gtb f (Float32.of_Z 0)
             then issued (run h (pca9685PWMFreq handle f) s2) = Some rest /\ rest <> []
             else rest = []).
Proof.
  intros S h s handle f Hv r s1 autoInc s2. split; [apply autoInc_byte |].
  destruct (pca9685Setup_run h s handle f Hv) as (rest & Hi & _ & Hrest).
  exists rest. split; assumption.
Qed.

Lemma pca9685Setup_counterexample :
  issued (run Chip.step (pca9685Setup 0 (Float32.of_Z 0)) (Chip.upd (fun _ => 0) 0 0x80))
  = Some [ReadByteData 0 PCA9685_MODE1; WriteByteData 0 PCA9685_MODE1 0x20]
  /\ 0x20 <> Z.setbit 0x80 5.
Proof. split; [vm_compute; reflexivity | discriminate]. Qed.


Lemma pca9685Setup_requests_witness :
  exists rest : list request,
    issued (run Chip.step (pca9685Setup 0 (Float32.of_Z 0)) (fun _ => 0)) =
    Some (ReadByteData 0 PCA9685_MODE1 :: WriteByteData 0 PCA9685_MODE1 0x20 :: rest)
    /\ rest = [].
Proof.
  destruct (pca9685Setup_requests _ Chip.step (fun _ => 0) 0 (Float32.of_Z 0) eq_refl)
    as [_ H].
  exact H.
Defined.

(** * Further properties of the driver *)

Lemma capFreq_bounds (f : Float32.float) :
  Float32.valid f = true -> Float32.is_nan f = false ->
  exists (m : positive) (e : Z),
    capFreq f = S754_finite false m e
    /\ digits2_pos m = 24%positive /\ -18 <= e <= -14
    /\ (e = -18 -> 10485760 <= Zpos m)
    /\ (e = -14 -> Zpos m <= 16384000).
Proof.
  intros Hv Hn. unfold capFreq, Float32.gtb, Float32.ltb, SFltb.
  change (Float32.of_Z 1000) with (S754_finite false 16384000 (-14)).
  change (Float32.of_Z 40) with (S754_finite false 10485760 (-18)).
  assert (H40 : exists (m : positive) (e : Z),
             S754_finite false 10485760 (-18) = S754_finite false m e
             /\ digits2_pos m = 24%positive /\ -18 <= e <= -14
             /\ (e = -18 -> 10485760 <= Zpos m) /\ (e = -14 -> Zpos m <= 16384000)).
  { eexists _, _. split; [reflexivity |]. split; [reflexivity |]. lia. }
  assert (H1000 : exists (m : positive) (e : Z),
             S754_finite false 16384000 (-14) = S754_finite false m e
             /\ digits2_pos m = 24%positive /\ -18 <= e <= -14
             /\ (e = -18 -> 10485760 <= Zpos m) /\ (e = -14 -> Zpos m <= 16384000)).
  { eexists _, _. split; [reflexivity |]. split; [reflexivity |]. lia. }
  destruct f as [s | s | | s m e].
  - exact H40.
  - destruct s; [exact H40 | exact H1000].
  - discriminate Hn.
  - destruct s; [exact H40 |].
    rewrite !SFcompare_finite.
    rewrite (Z.compare_antisym e (-14)).
    destruct (Z.compare_spec e (-14)) as [He | He | He]; cbn [CompOpp].
    + subst e. rewrite (Pos.compare_antisym m 16384000), (Pos2Z.inj_compare m 16384000).
      destruct (Z.compare_spec (Zpos m) 16384000) as [P | P | P]; cbn [CompOpp];
        try exact H1000;
        (exists m, (-14); split; [reflexivity |];
         split; [apply (valid_digits false m (-14) Hv); lia | lia]).
    + destruct (Z.compare_spec e (-18)) as [He' | He' | He'].
      * subst e.
        rewrite (Pos2Z.inj_compare m 10485760).
        destruct (Z.compare_spec (Zpos m) 10485760) as [P | P | P];
          try exact H40;
          (exists m, (-18); split; [reflexivity |];
           split; [apply (valid_digits false m (-18) Hv); lia | lia]).
      * exact H40.
      * exists m, e. split; [reflexivity |].
        split; [apply (valid_digits false m e Hv); lia | lia].
    + exact H1000.
Qed.

Lemma prescale_value (m : positive) (e : Z) :
  digits2_pos m = 24%positive -> -18 <= e <= -14 ->
  exists (M : positive) (c : Z),
    (c = 1 \/ c = 2)
    /\ scaledDividend / (c * Zpos m) <= Zpos M <= scaledDividend / (c * Zpos m) + 1
    /\ prescaleOf (S754_finite false m e)
       = Some ((Zpos M - 2 ^ (35 + e - c)) / 2 ^ (36 + e - c)).
Proof.
  intros Hm He. unfold prescaleOf. rewrite mul_4096 by (trivial; lia).
  destruct (div_25M m (e + 12) Hm ltac:(lia)) as (M & E' & c & HD & HMd & Hc & HMb).
  rewrite HD, sub_half_to_int by (trivial; lia).
  exists M, c. destruct Hc as [[-> ->] | [-> ->]].
  - split; [left; reflexivity |]. split; [exact HMb |]. do 3 f_equal; f_equal; lia.
  - split; [right; reflexivity |]. split; [exact HMb |]. do 3 f_equal; f_equal; lia.
Qed.

Lemma quotient_bounds (c m lo hi : Z) :
  0 < c -> 0 < lo -> lo <= m <= hi ->
  scaledDividend / (c * hi) <= scaledDividend / (c * m) <= scaledDividend / (c * lo).
Proof.
  intros Hc Hlo Hm.
  assert (H1 : 0 < c * lo) by (apply Z.mul_pos_pos; lia).
  assert (H2 : c * lo <= c * m) by (apply Z.mul_le_mono_nonneg_l; lia).
  assert (H3 : c * m <= c * hi) by (apply Z.mul_le_mono_nonneg_l; lia).
  assert (H0 : 0 <= scaledDividend) by discriminate.
  split; apply Z.div_le_compat_l; try exact H0; lia.
Qed.

Ltac fold_consts HQ :=
  repeat match goal with
    | |- context [2 ^ ?x] =>
        let k := eval vm_compute in (2 ^ x) in change (2 ^ x) with k
    end;
  match type of HQ with
  | ?a <= _ <= ?b =>
      let ka := eval vm_compute in a in
      let kb := eval vm_compute in b in
      change a with ka in HQ; change b with kb in HQ
  end.

Ltac range_case m lo hi :=
  let HQ := fresh "HQ" in
  match goal with
  | HM : scaledDividend / (?c * Zpos m) <= _ <= _ |- _ =>
      pose proof (quotient_bounds c (Zpos m) lo hi eq_refl eq_refl ltac:(lia)) as HQ
  end;
  fold_consts HQ;
  split; [apply Z.div_le_lower_bound; lia
         | apply Z.lt_succ_r; apply Z.div_lt_upper_bound; lia].

Lemma prescale_range_finite (m : positive) (e : Z) :
  digits2_pos m = 24%positive -> -18 <= e <= -14 ->
  (e = -18 -> 10485760 <= Zpos m) -> (e = -14 -> Zpos m <= 16384000) ->
  exists p : Z, prescaleOf (S754_finite false m e) = Some p /\ 5 <= p <= 152.
Proof.
  intros Hm He Hlo Hhi.
  pose proof (digits2_pos_spec m) as Hmb. rewrite Hm in Hmb.
  change (2 ^ (24 - 1)) with 8388608 in Hmb. change (2 ^ 24) with 16777216 in Hmb.
  destruct (prescale_value m e Hm He) as (M & c & Hc & HM & Hp).
  eexists. split; [exact Hp |].
  assert (Hcases : e = -18 \/ e = -17 \/ e = -16 \/ e = -15 \/ e = -14) by lia.
  destruct Hcases as [-> | [-> | [-> | [-> | ->]]]]; destruct Hc as [-> | ->].
  - specialize (Hlo eq_refl). range_case m 10485760 16777215.
  - specialize (Hlo eq_refl). range_case m 10485760 16777215.
  - range_case m 8388608 16777215.
  - range_case m 8388608 16777215.
  - range_case m 8388608 16777215.
  - range_case m 8388608 16777215.
  - range_case m 8388608 16777215.
  - range_case m 8388608 16777215.
  - specialize (Hhi eq_refl). range_case m 8388608 16384000.
  - specialize (Hhi eq_refl). range_case m 8388608 16384000.
Qed.

Lemma prescale_range (f : Float32.float) :
  Float32.valid f = true -> Float32.is_nan f = false ->
  exists p : Z, prescaleOf (capFreq f) = Some p /\ 5 <= p <= 152.
Proof.
  intros Hv Hn.
  destruct (capFreq_bounds f Hv Hn) as (m & e & -> & Hm & He & Hlo & Hhi).
  apply prescale_range_finite; assumption.
Qed.

(** X1.  For every single-precision frequency other than NaN the prescale
    that [pca9685PWMFreq] writes to the PRESCALE register lies between 5 and
    152, so it fits the 8-bit register. *)
Theorem prescale_fits_register :
  forall f : Float32.float,
    Float32.valid f = true -> Float32.is_nan f = false ->
    exists p : Z,
      5 <= p <= 152
      /\ forall (S : Type) (h : handler S) (s : S) (fd : Z),
           exists l : list request,
             issued (run h (pca9685PWMFreq fd f) s) = Some l
             /\ nth_error l 2 = Some (WriteByteData fd PCA9685_PRESCALE p).
Proof.
  intros f Hv Hn. destruct (prescale_range f Hv Hn) as (p & Hp & Hr).
  exists p. split; [exact Hr |]. intros S h s fd.
  destruct (pca9685PWMFreq_run h s fd f p Hp) as [Hi _].
  eexists. split; [exact Hi | reflexivity].
Qed.

Lemma prescale_fits_register_witness :
  exists p : Z,
    5 <= p <= 152
    /\ forall (S : Type) (h : handler S) (s : S) (fd : Z),
         exists l : list request,
           issued (run h (pca9685PWMFreq fd (Float32.of_Z 50)) s) = Some l
           /\ nth_error l 2 = Some (WriteByteData fd PCA9685_PRESCALE p).
Proof. apply (prescale_fits_register (Float32.of_Z 50)); reflexivity. Defined.

Lemma capFreq_low (f : Float32.float) :
  Float32.leb f (Float32.of_Z 40) = true -> capFreq f = Float32.of_Z 40.
Proof.
  unfold capFreq, Float32.gtb, Float32.ltb, Float32.leb, SFltb, SFleb.
  change (Float32.of_Z 1000) with (S754_finite false 16384000 (-14)).
  change (Float32.of_Z 40) with (S754_finite false 10485760 (-18)).
  destruct f as [s | [|] | | [|] m e];
    try (cbn [SFcompare]; intros; try discriminate; reflexivity).
  rewrite !SFcompare_finite.
  rewrite (Z.compare_antisym e (-14)).
  destruct (Z.compare_spec e (-18)) as [E1 | E1 | E1];
    destruct (Z.compare_spec e (-14)) as [E2 | E2 | E2];
    try (exfalso; lia); cbn [CompOpp]; intros H; try discriminate H; try reflexivity.
  destruct (Pos.compare_spec m 10485760) as [P | P | P];
    try discriminate H; subst; reflexivity.
Qed.

Lemma capFreq_high (f : Float32.float) :
  Float32.leb (Float32.of_Z 1000) f = true -> capFreq f = Float32.of_Z 1000.
Proof.
  unfold capFreq, Float32.gtb, Float32.ltb, Float32.leb, SFltb, SFleb.
  change (Float32.of_Z 1000) with (S754_finite false 16384000 (-14)).
  change (Float32.of_Z 40) with (S754_finite false 10485760 (-18)).
  destruct f as [s | [|] | | [|] m e];
    try (cbn [SFcompare]; intros; try discriminate; reflexivity).
  rewrite !SFcompare_finite.
  rewrite (Z.compare_antisym e (-14)).
  destruct (Z.compare_spec e (-18)) as [E1 | E1 | E1];
    destruct (Z.compare_spec e (-14)) as [E2 | E2 | E2];
    try (exfalso; lia); cbn [CompOpp]; intros H; try discriminate H; try reflexivity.
  rewrite (Pos.compare_antisym m 16384000) in *.
  destruct (Pos.compare_spec m 16384000) as [P | P | P]; cbn [CompOpp] in *;
    try discriminate H; subst; reflexivity.
Qed.

(** X2.  Out-of-range frequencies saturate: for every [f <= 40] (zero,
    negative values and minus infinity included) [pca9685PWMFreq] is the
    same routine as at 40 and writes prescale 152 to the PRESCALE register;
    for every [f >= 1000] (plus infinity included) it is the same routine as
    at 1000 and writes prescale 5. *)
Theorem pca9685PWMFreq_saturates :
  forall (S : Type) (h : handler S) (s : S) (fd : Z) (f : Float32.float),
    (Float32.leb f (Float32.of_Z 40) = true ->
     pca9685PWMFreq fd f = pca9685PWMFreq fd (Float32.of_Z 40)
     /\ exists l : list request,
          issued (run h (pca9685PWMFreq fd f) s) = Some l
          /\ nth_error l 2 = Some (WriteByteData fd PCA9685_PRESCALE 152))
    /\ (Float32.leb (Float32.of_Z 1000) f = true ->
        pca9685PWMFreq fd f = pca9685PWMFreq fd (Float32.of_Z 1000)
        /\ exists l : list request,
             issued (run h (pca9685PWMFreq fd f) s) = Some l
             /\ nth_error l 2 = Some (WriteByteData fd PCA9685_PRESCALE 5)).
Proof.
  intros S h s fd f. split; intros H.
  - assert (Hp : prescaleOf (capFreq f) = Some 152)
      by (rewrite (capFreq_low f H); reflexivity).
    split; [unfold pca9685PWMFreq; rewrite (capFreq_low f H); reflexivity |].
    destruct (pca9685PWMFreq_run h s fd f 152 Hp) as [Hi _].
    eexists. split; [exact Hi | reflexivity].
  - assert (Hp : prescaleOf (capFreq f) = Some 5)
      by (rewrite (capFreq_high f H); reflexivity).
    split; [unfold pca9685PWMFreq; rewrite (capFreq_high f H); reflexivity |].
    destruct (pca9685PWMFreq_run h s fd f 5 Hp) as [Hi _].
    eexists. split; [exact Hi | reflexivity].
Qed.

Lemma pca9685PWMFreq_saturates_witness :
  (exists l : list request,
     issued (run Chip.step (pca9685PWMFreq 0 (S754_infinity true)) (fun _ => 0)) = Some l
     /\ nth_error l 2 = Some (WriteByteData 0 PCA9685_PRESCALE 152))
  /\ (exists l : list request,
        issued (run Chip.step (pca9685PWMFreq 0 (S754_infinity false)) (fun _ => 0)) = Some l
        /\ nth_error l 2 = Some (WriteByteData 0 PCA9685_PRESCALE 5)).
Proof.
  split.
  - destruct (pca9685PWMFreq_saturates _ Chip.step (fun _ => 0) 0 (S754_infinity true))
      as [H _].
    apply H. reflexivity.
  - destruct (pca9685PWMFreq_saturates _ Chip.step (fun _ => 0) 0 (S754_infinity false))
      as [_ H].
    apply H. reflexivity.
Defined.

(** X3.  On every transport, [pca9685PWMFreq] runs into the undefined
    float-to-int conversion exactly when the frequency is NaN: NaN passes both
    comparisons of the cap unchanged, and every other single-precision
    value, the infinities included, is capped into the range where the
    conversion is defined. *)
Theorem pca9685PWMFreq_undefined_iff_nan :
  forall (S : Type) (h : handler S) (s : S) (fd : Z) (f : Float32.float),
    Float32.valid f = true ->
    (run h (pca9685PWMFreq fd f) s = None <-> Float32.is_nan f = true).
Proof.
  intros S h s fd f Hv. split.
  - intros Hrun. destruct (Float32.is_nan f) eqn:Hn; [reflexivity |].
    destruct (prescale_range f Hv Hn) as (p & Hp & _).
    destruct (pca9685PWMFreq_run h s fd f p Hp) as [Hi _].
    rewrite Hrun in Hi. discriminate Hi.
  - intros Hn. destruct f; try discriminate Hn. reflexivity.
Qed.

Lemma pca9685PWMFreq_undefined_iff_nan_witness :
  run Chip.step (pca9685PWMFreq 0 S754_nan) (fun _ => 0) = None.
Proof.
  apply (pca9685PWMFreq_undefined_iff_nan _ Chip.step (fun _ => 0) 0 S754_nan eq_refl).
  reflexivity.
Defined.

Lemma mode_values_bytes (x : Z) :
  0 <= x < 128 ->
  0 <= Z.lor x 0x10 <= 255 /\ 0 <= Z.land x 0xEF <= 255
  /\ 0 <= Z.lor (Z.land x 0xEF) 0x80 <= 255 /\ 0 <= Z.lor x 0x20 <= 255.
Proof.
  intros Hx.
  pose proof (forall_range
                (fun x => (0 <=? Z.lor x 0x10) && (Z.lor x 0x10 <=? 255)
                          && ((0 <=? Z.land x 0xEF) && (Z.land x 0xEF <=? 255))
                          && ((0 <=? Z.lor (Z.land x 0xEF) 0x80)
                              && (Z.lor (Z.land x 0xEF) 0x80 <=? 255))
                          && ((0 <=? Z.lor x 0x20) && (Z.lor x 0x20 <=? 255)))
                0 128 ltac:(vm_compute; reflexivity) x ltac:(lia)) as H.
  cbv beta in H. rewrite !andb_true_iff, !Z.leb_le in H. lia.
Qed.

Lemma byteWrite_intro (fd reg v : Z) :
  0 <= v <= 255 -> byteWrite (WriteByteData fd reg v) = true.
Proof. intros H. cbn [byteWrite]. apply andb_true_iff. rewrite !Z.leb_le. lia. Qed.

Lemma pca9685PWMFreq_bytes {S : Type} (h : handler S) (s : S) (fd : Z) (f : Float32.float) :
  Float32.valid f = true -> Float32.is_nan f = false ->
  exists l : list request,
    issued (run h (pca9685PWMFreq fd f) s) = Some l /\ forallb byteWrite l = true.
Proof.
  intros Hv Hn. destruct (prescale_range f Hv Hn) as (p & Hp & Hr).
  destruct (pca9685PWMFreq_run h s fd f p Hp) as [Hi _].
  eexists. split; [exact Hi |].
  set (r := fst (h (ReadByteData fd PCA9685_MODE1) s)).
  pose proof (mode_values_bytes (Z.land r 0x7F) (land_7F_range r)) as (H1 & H2 & H3 & _).
  cbn [forallb]. rewrite !byteWrite_intro by (assumption || lia). reflexivity.
Qed.

(** X4.  Whatever the transport answers to the read of MODE1 (a negative
    error code included), every value passed to [i2cWriteByteData] lies in
    0..255: by [pca9685PWMFreq] for every frequency other than NaN (at NaN
    the routine runs into the undefined conversion before any request), and
    by [pca9685Setup] for every frequency. *)
Theorem mode_writes_are_bytes :
  forall (S : Type) (h : handler S) (s : S) (fd : Z) (f : Float32.float),
    Float32.valid f = true ->
    (Float32.is_nan f = false ->
     exists l : list request,
       issued (run h (pca9685PWMFreq fd f) s) = Some l /\ forallb byteWrite l = true)
    /\ exists l : list request,
         issued (run h (pca9685Setup fd f) s) = Some l /\ forallb byteWrite l = true.
Proof.
  intros S h s fd f Hv. split; [apply pca9685PWMFreq_bytes, Hv |].
  destruct (pca9685Setup_run h s fd f Hv) as (rest & Hi & _ & Hrest).
  eexists. split; [exact Hi |].
  set (r := fst (h (ReadByteData fd PCA9685_MODE1) s)).
  pose proof (mode_values_bytes (Z.land r 0x7F) (land_7F_range r)) as (_ & _ & _ & H4).
  cbn [forallb]. rewrite byteWrite_intro by exact H4. cbn [byteWrite andb].
  destruct (Float32.gtb f (Float32.of_Z 0)) eqn:Hgt.
  - destruct Hrest as [Hrest _].
    match type of Hrest with
    | issued (run h _ ?s2) = _ =>
        destruct (pca9685PWMFreq_bytes h s2 fd f Hv (gtb_zero_not_nan f Hgt))
          as (l & Hl & Hb)
    end.
    rewrite Hrest in Hl. injection Hl as ->. exact Hb.
  - subst rest. reflexivity.
Qed.

Lemma mode_writes_are_bytes_witness :
  exists l : list request,
    issued (run Chip.step (pca9685Setup 0 (Float32.of_Z 50)) (fun _ => 0)) = Some l
    /\ forallb byteWrite l = true.
Proof.
  destruct (mode_writes_are_bytes _ Chip.step (fun _ => 0) 0 (Float32.of_Z 50) eq_refl)
    as [_ H].
  exact H.
Defined.

(** X5.  [pca9685FullOff] does not check the answer to its read: when the
    transport answers with a negative value [r] (an error code), the write is
    still issued, with a negative value when [tf] is non-zero and with the
    byte [r & 0xEF] when [tf] is zero. *)
Theorem pca9685FullOff_ignores_read_error :
  forall (S : Type) (h : handler S) (s : S) (fd pin tf : Z),
    let reg := Int32.add (baseReg pin) 3 in
    let r := fst (h (ReadByteData fd reg) s) in
    r < 0 ->
    exists v : Z,
      issued (run h (pca9685FullOff fd pin tf) s) =
      Some [ReadByteData fd reg; WriteByteData fd reg v]
      /\ (tf = 0 -> v = Z.land r 0xEF /\ 0 <= v <= 239)
      /\ (tf <> 0 -> v < 0).
Proof.
  intros S h s fd pin tf reg r Hr.
  pose proof (pca9685FullOff_run h s fd pin tf) as Hrun. cbv zeta in Hrun.
  fold reg in Hrun. fold r in Hrun.
  eexists. split; [exact Hrun |]. split; intros Htf.
  - subst tf. cbn [Z.eqb]. split; [reflexivity |].
    change 0xEF with 239.
    assert (H : 0 <= Z.land r 239) by (apply Z.land_nonneg; right; lia).
    split; [exact H |].
    destruct (Z.le_gt_cases (Z.land r 239) 239) as [Hle | Hgt]; [exact Hle |].
    exfalso.
    assert (Hb : Z.land (Z.land r 239) 255 = Z.land r 239).
    { rewrite <- Z.land_assoc. reflexivity. }
    assert (Hlt : 0 <= Z.land (Z.land r 239) 255 < 256).
    { change 255 with (Z.ones 8). rewrite Z.land_ones by lia. apply Z.mod_pos_bound. lia. }
    rewrite Hb in Hlt.
    pose proof (forall_range (fun x => Z.land x 239 <=? 239) 0 256
                  ltac:(vm_compute; reflexivity) (Z.land r 239) ltac:(lia)) as Hx.
    cbv beta in Hx. apply Z.leb_le in Hx.
    rewrite <- Z.land_assoc in Hx. change (Z.land 239 239) with 239 in Hx. lia.
  - apply Z.eqb_neq in Htf. rewrite Htf. apply Z.lor_neg. left. exact Hr.
Qed.

Lemma pca9685FullOff_ignores_read_error_witness :
  exists v : Z,
    issued (run (fun (_ : request) (s : unit) => (-83, s)) (pca9685FullOff 0 3 1) tt) =
    Some [ReadByteData 0 (Int32.add (baseReg 3) 3); WriteByteData 0 (Int32.add (baseReg 3) 3) v]
    /\ (1 = 0 -> v = Z.land (-83) 0xEF /\ 0 <= v <= 239)
    /\ (1 <> 0 -> v < 0).
Proof.
  apply (pca9685FullOff_ignores_read_error unit (fun _ s => (-83, s)) tt 0 3 1).
  cbn. lia.
Defined.

Lemma land_FF_range (x : Z) : 0 <= Z.land x 0xFF < 256.
Proof.
  change 0xFF with (Z.ones 8). rewrite Z.land_ones by lia.
  apply Z.mod_pos_bound. lia.
Qed.

Lemma land_FF_byte (x : Z) : 0 <= x < 256 -> Z.land x 0xFF = x.
Proof.
  intros H. change 0xFF with (Z.ones 8). rewrite Z.land_ones by lia.
  apply Z.mod_small. lia.
Qed.

Lemma upd_ok (c : Chip.regs) (a v : Z) :
  Chip.ok c -> 0 <= v < 256 -> Chip.ok (Chip.upd c a v).
Proof.
  intros Hc Hv x. unfold Chip.upd. destruct (x =? a); [exact Hv | apply Hc].
Qed.

Lemma readback_words (fd pin : Z) (c : Chip.regs) :
  0 <= pin <= 15 ->
  Chip.readback fd pin c =
  Some (Some (Chip.read_word c (baseReg pin)), Some (Chip.read_word c (baseReg pin + 2))).
Proof.
  intros Hpin. unfold Chip.readback, pca9685PWMRead, i2cReadWordData.
  rewrite (baseReg_channel pin Hpin), add_small by lia.
  cbn [bind]. rewrite !run_call. reflexivity.
Qed.

Lemma readback_frame (fd q : Z) (c c' : Chip.regs) :
  0 <= q <= 15 ->
  (forall a : Z, baseReg q <= a <= baseReg q + 3 -> c' a = c a) ->
  Chip.readback fd q c' = Chip.readback fd q c.
Proof.
  intros Hq H. rewrite !readback_words by exact Hq. unfold Chip.read_word.
  rewrite !H by lia. reflexivity.
Qed.

(** X6.  On the register file, [pca9685PWMWrite] to a channel in 0..15
    changes no register outside the four of that channel's block: every other
    channel reads back as before, and MODE1 and PRESCALE keep their
    contents. *)
Theorem pca9685PWMWrite_frame :
  forall (c : Chip.regs) (fd pin on off : Z), 0 <= pin <= 15 ->
    exists c' : Chip.regs,
      final (run Chip.step (pca9685PWMWrite fd pin on off) c) = Some c'
      /\ (forall a : Z, a < baseReg pin \/ baseReg pin + 3 < a -> c' a = c a)
      /\ (forall q : Z, 0 <= q <= 15 -> q <> pin ->
            Chip.readback fd q c' = Chip.readback fd q c)
      /\ c' PCA9685_MODE1 = c PCA9685_MODE1
      /\ c' PCA9685_PRESCALE = c PCA9685_PRESCALE.
Proof.
  intros c fd pin on off Hpin.
  unfold pca9685PWMWrite, i2cWriteWordData.
  rewrite add_small by (rewrite ?(baseReg_channel pin Hpin); lia).
  cbn [bind]. rewrite !run_call. cbn [Chip.step fst snd run final].
  eexists. split; [reflexivity |].
  assert (Hframe : forall a : Z, a < baseReg pin \/ baseReg pin + 3 < a ->
            Chip.write_word (Chip.write_word c (baseReg pin) (Z.land on 4095))
              (baseReg pin + 2) (Z.land off 4095) a = c a).
  { intros a Ha. unfold Chip.write_word. rewrite !upd_other by lia. reflexivity. }
  split; [exact Hframe |]. rewrite (baseReg_channel pin Hpin) in *.
  split; [| split].
  - intros q Hq Hne. apply readback_frame; [exact Hq |].
    intros a Ha. rewrite (baseReg_channel q Hq) in Ha. apply Hframe. lia.
  - apply Hframe. unfold PCA9685_MODE1. lia.
  - apply Hframe. unfold PCA9685_PRESCALE. lia.
Qed.

Lemma pca9685PWMWrite_frame_witness :
  exists c' : Chip.regs,
    final (run Chip.step (pca9685PWMWrite 0 3 100 200) (fun _ => 0)) = Some c'
    /\ (forall q : Z, 0 <= q <= 15 -> q <> 3 ->
          Chip.readback 0 q c' = Chip.readback 0 q (fun _ => 0)).
Proof.
  destruct (pca9685PWMWrite_frame (fun _ => 0) 0 3 100 200 ltac:(lia))
    as (c' & H1 & _ & H3 & _).
  exists c'. split; assumption.
Defined.

(** X7.  [pca9685PWMWrite] does not validate the channel index: every index
    from 16 upwards addresses the broadcast block (0xFA and 0xFA + 2), and a
    negative index addresses registers below the first channel register. *)
Theorem pca9685PWMWrite_unchecked_index :
  forall (S : Type) (h : handler S) (s : S) (fd pin on off : Z),
    (16 <= pin ->
     issued (run h (pca9685PWMWrite fd pin on off) s) =
     Some [WriteWordData fd LEDALL_ON_L (Z.land on 0xFFF);
           WriteWordData fd (LEDALL_ON_L + 2) (Z.land off 0xFFF)])
    /\ (-1000 <= pin < 0 ->
        issued (run h (pca9685PWMWrite fd pin on off) s) =
        Some [WriteWordData fd (LED0_ON_L + 4 * pin) (Z.land on 0xFFF);
              WriteWordData fd (LED0_ON_L + 4 * pin + 2) (Z.land off 0xFFF)]
        /\ LED0_ON_L + 4 * pin + 2 < LED0_ON_L).
Proof.
  intros S h s fd pin on off. unfold pca9685PWMWrite, i2cWriteWordData. split; intros Hpin.
  - rewrite (baseReg_all pin Hpin). cbn [bind]. rewrite !run_call. reflexivity.
  - assert (Hb : baseReg pin = LED0_ON_L + 4 * pin).
    { unfold baseReg, PIN_ALL, LED0_ON_L. destruct (pin >=? 16) eqn:E; [lia |].
      rewrite mul4_small by lia. apply add_small; lia. }
    rewrite Hb. unfold LED0_ON_L in *. rewrite add_small by lia.
    cbn [bind]. rewrite !run_call. split; [reflexivity | lia].
Qed.

Lemma pca9685PWMWrite_unchecked_index_witness :
  issued (run Chip.step (pca9685PWMWrite 0 17 1 2) (fun _ => 0)) =
  Some [WriteWordData 0 LEDALL_ON_L (Z.land 1 0xFFF);
        WriteWordData 0 (LEDALL_ON_L + 2) (Z.land 2 0xFFF)].
Proof.
  destruct (pca9685PWMWrite_unchecked_index _ Chip.step (fun _ => 0) 0 17 1 2) as [H _].
  apply H. lia.
Defined.

(** X8.  [pca9685PWMRead] issues only word reads, one per non-null output
    pointer (none when both are null) and in the order on, off; it yields a
    value exactly for the non-null pointers and leaves the register file
    unchanged. *)
Theorem pca9685PWMRead_read_only :
  forall (fd pin : Z) (on off : bool),
    (forall (S : Type) (h : handler S) (s : S),
       exists (l : list request) (von voff : option Z),
         issued (run h (pca9685PWMRead fd pin on off) s) = Some l
         /\ result (run h (pca9685PWMRead fd pin on off) s) = Some (von, voff)
         /\ l = (if on then [ReadWordData fd (baseReg pin)] else [])
                ++ (if off then [ReadWordData fd (Int32.add (baseReg pin) 2)] else [])
         /\ forallb isRead l = true
         /\ (von = None <-> on = false) /\ (voff = None <-> off = false))
    /\ (forall c : Chip.regs,
          final (run Chip.step (pca9685PWMRead fd pin on off) c) = Some c).
Proof.
  intros fd pin on off. unfold pca9685PWMRead, i2cReadWordData. split.
  - intros S h s.
    destruct on, off; cbn [bind]; rewrite ?run_call;
      cbn [run issued result requests map fst];
      eexists _, _, _; (split; [reflexivity |]); (split; [reflexivity |]);
      (split; [reflexivity |]); (split; [reflexivity |]);
      split; split; intros H; try discriminate H; reflexivity.
  - intros c. destruct on, off; cbn [bind]; rewrite ?run_call; reflexivity.
Qed.

Lemma pca9685FullOn_final (c : Chip.regs) (fd pin tf : Z) :
  0 <= pin <= 15 ->
  let b := baseReg pin in
  final (run Chip.step (pca9685FullOn fd pin tf) c) =
  Some (if tf =? 0
        then Chip.upd c (b + 1) (Z.land (Z.land (c (b + 1)) 0xEF) 0xFF)
        else Chip.upd (Chip.upd c (b + 1) (Z.land (Z.lor (c (b + 1)) 0x10) 0xFF))
               (b + 3) (Z.land (Z.land (c (b + 3)) 0xEF) 0xFF)).
Proof.
  intros Hpin b. subst b.
  unfold pca9685FullOn, pca9685FullOff, i2cReadByteData, i2cWriteByteData.
  rewrite (baseReg_channel pin Hpin), !add_small by lia.
  destruct (tf =? 0); cbn [bind]; rewrite !run_call; cbn [Chip.step fst snd run final].
  - reflexivity.
  - change (0 =? 0) with true. cbv iota. rewrite upd_other by lia. reflexivity.
Qed.

Lemma pca9685FullOff_final (c : Chip.regs) (fd pin tf : Z) :
  0 <= pin <= 15 ->
  let b := baseReg pin in
  final (run Chip.step (pca9685FullOff fd pin tf) c) =
  Some (Chip.upd c (b + 3)
          (Z.land (if tf =? 0 then Z.land (c (b + 3)) 0xEF else Z.lor (c (b + 3)) 0x10) 0xFF)).
Proof.
  intros Hpin b. subst b.
  unfold pca9685FullOff, i2cReadByteData, i2cWriteByteData.
  rewrite (baseReg_channel pin Hpin), !add_small by lia.
  cbn [bind]. rewrite !run_call. reflexivity.
Qed.

Lemma pca9685FullOn_words (c : Chip.regs) (fd pin tf : Z) :
  Chip.ok c -> 0 <= pin <= 15 ->
  exists c' : Chip.regs,
    final (run Chip.step (pca9685FullOn fd pin tf) c) = Some c'
    /\ Chip.ok c'
    /\ Chip.read_word c' (baseReg pin)
       = (if tf =? 0 then Z.clearbit (Chip.read_word c (baseReg pin)) 12
          else Z.setbit (Chip.read_word c (baseReg pin)) 12)
    /\ Chip.read_word c' (baseReg pin + 2)
       = (if tf =? 0 then Chip.read_word c (baseReg pin + 2)
          else Z.clearbit (Chip.read_word c (baseReg pin + 2)) 12)
    /\ (forall a : Z, a <> baseReg pin + 1 -> a <> baseReg pin + 3 -> c' a = c a).
Proof.
  intros Hok Hpin. rewrite (pca9685FullOn_final c fd pin tf Hpin). cbv zeta.
  eexists. split; [reflexivity |].
  unfold Chip.read_word.
  replace (baseReg pin + 2 + 1) with (baseReg pin + 3) by lia.
  destruct (tf =? 0).
  - split; [apply upd_ok; [exact Hok | apply land_FF_range] |].
    upd_simpl. split; [| split].
    + apply word_clear_flag; apply Hok.
    + reflexivity.
    + intros a H1 H3. upd_simpl. reflexivity.
  - split; [apply upd_ok; [apply upd_ok; [exact Hok |] |]; apply land_FF_range |].
    upd_simpl. split; [| split].
    + apply word_set_flag; apply Hok.
    + apply word_clear_flag; apply Hok.
    + intros a H1 H3. upd_simpl. reflexivity.
Qed.

Lemma pca9685FullOff_words (c : Chip.regs) (fd pin tf : Z) :
  Chip.ok c -> 0 <= pin <= 15 ->
  exists c' : Chip.regs,
    final (run Chip.step (pca9685FullOff fd pin tf) c) = Some c'
    /\ Chip.ok c'
    /\ Chip.read_word c' (baseReg pin) = Chip.read_word c (baseReg pin)
    /\ Chip.read_word c' (baseReg pin + 2)
       = (if tf =? 0 then Z.clearbit (Chip.read_word c (baseReg pin + 2)) 12
          else Z.setbit (Chip.read_word c (baseReg pin + 2)) 12)
    /\ (forall a : Z, a <> baseReg pin + 3 -> c' a = c a).
Proof.
  intros Hok Hpin. rewrite (pca9685FullOff_final c fd pin tf Hpin). cbv zeta.
  eexists. split; [reflexivity |].
  split; [apply upd_ok; [exact Hok | apply land_FF_range] |].
  unfold Chip.read_word.
  replace (baseReg pin + 2 + 1) with (baseReg pin + 3) by lia.
  upd_simpl. split; [reflexivity |]. split.
  - destruct (tf =? 0); [apply word_clear_flag | apply word_set_flag]; apply Hok.
  - intros a H3. upd_simpl. reflexivity.
Qed.

Lemma ticks_setbit (x : Z) : Z.land (Z.setbit x 12) 0xFFF = Z.land x 0xFFF.
Proof.
  apply Z.bits_inj'. intros n Hn. rewrite !Z.land_spec, Z.setbit_eqb by lia.
  change 0xFFF with (Z.ones 12). rewrite Z.testbit_ones_nonneg by lia.
  destruct (Z.ltb_spec n 12) as [H | H]; [| rewrite !andb_false_r; reflexivity].
  replace (12 =? n) with false by (symmetry; apply Z.eqb_neq; lia). reflexivity.
Qed.

Lemma ticks_clearbit (x : Z) : Z.land (Z.clearbit x 12) 0xFFF = Z.land x 0xFFF.
Proof.
  apply Z.bits_inj'. intros n Hn. rewrite !Z.land_spec, Z.clearbit_eqb by lia.
  change 0xFFF with (Z.ones 12). rewrite Z.testbit_ones_nonneg by lia.
  destruct (Z.ltb_spec n 12) as [H | H]; [| rewrite !andb_false_r; reflexivity].
  replace (12 =? n) with false by (symmetry; apply Z.eqb_neq; lia).
  cbn [negb]. rewrite andb_true_r. reflexivity.
Qed.

Lemma clearbit_setbit (x n : Z) : 0 <= n -> Z.clearbit (Z.setbit x n) n = Z.clearbit x n.
Proof.
  intros Hn. apply Z.bits_inj'. intros k Hk.
  rewrite !Z.clearbit_eqb, Z.setbit_eqb by lia.
  destruct (n =? k); [rewrite !andb_false_r |]; reflexivity.
Qed.

Lemma setbit_clearbit (x n : Z) : 0 <= n -> Z.setbit (Z.clearbit x n) n = Z.setbit x n.
Proof.
  intros Hn. apply Z.bits_inj'. intros k Hk.
  rewrite !Z.setbit_eqb, Z.clearbit_eqb by lia.
  destruct (n =? k); [reflexivity | cbn [negb orb]; rewrite andb_true_r; reflexivity].
Qed.

(** X9.  On the register file, for a channel in 0..15, [pca9685FullOn]
    changes bit 12 of the on word (set for non-zero [tf], cleared for zero)
    and, when [tf] is non-zero, clears bit 12 of the off word; the 12-bit tick
    values of both words, every other channel, MODE1 and PRESCALE are left as
    they were. *)
Theorem pca9685FullOn_local :
  forall (c : Chip.regs) (fd pin tf : Z), Chip.ok c -> 0 <= pin <= 15 ->
    exists (c' : Chip.regs) (on0 off0 on1 off1 : Z),
      final (run Chip.step (pca9685FullOn fd pin tf) c) = Some c'
      /\ Chip.readback fd pin c = Some (Some on0, Some off0)
      /\ Chip.readback fd pin c' = Some (Some on1, Some off1)
      /\ on1 = (if tf =? 0 then Z.clearbit on0 12 else Z.setbit on0 12)
      /\ off1 = (if tf =? 0 then off0 else Z.clearbit off0 12)
      /\ Z.land on1 0xFFF = Z.land on0 0xFFF
      /\ Z.land off1 0xFFF = Z.land off0 0xFFF
      /\ (forall q : Z, 0 <= q <= 15 -> q <> pin ->
            Chip.readback fd q c' = Chip.readback fd q c)
      /\ c' PCA9685_MODE1 = c PCA9685_MODE1
      /\ c' PCA9685_PRESCALE = c PCA9685_PRESCALE.
Proof.
  intros c fd pin tf Hok Hpin.
  destruct (pca9685FullOn_words c fd pin tf Hok Hpin) as (c' & Hf & _ & Hon & Hoff & Hfr).
  exists c'. eexists _, _, _, _. split; [exact Hf |].
  split; [apply readback_words, Hpin |]. split; [apply readback_words, Hpin |].
  split; [exact Hon |]. split; [exact Hoff |].
  rewrite Hon, Hoff. rewrite (baseReg_channel pin Hpin) in *.
  split; [destruct (tf =? 0); [apply ticks_clearbit | apply ticks_setbit] |].
  split; [destruct (tf =? 0); [reflexivity | apply ticks_clearbit] |].
  split; [| split].
  - intros q Hq Hne. apply readback_frame; [exact Hq |].
    intros a Ha. rewrite (baseReg_channel q Hq) in Ha. apply Hfr; lia.
  - apply Hfr; unfold PCA9685_MODE1; lia.
  - apply Hfr; unfold PCA9685_PRESCALE; lia.
Qed.

Lemma pca9685FullOn_local_witness :
  exists c' : Chip.regs,
    final (run Chip.step (pca9685FullOn 0 3 1) (fun _ => 0)) = Some c'
    /\ (forall q : Z, 0 <= q <= 15 -> q <> 3 ->
          Chip.readback 0 q c' = Chip.readback 0 q (fun _ => 0)).
Proof.
  destruct (pca9685FullOn_local (fun _ => 0) 0 3 1 ltac:(intros a; lia) ltac:(lia))
    as (c' & on0 & off0 & on1 & off1 & H1 & _ & _ & _ & _ & _ & _ & H8 & _).
  exists c'. split; assumption.
Defined.

(** X10.  On the register file, for a channel in 0..15, [pca9685FullOff]
    leaves the 12-bit tick values of both words, every other channel, MODE1
    and PRESCALE as they were. *)
Theorem pca9685FullOff_local :
  forall (c : Chip.regs) (fd pin tf : Z), Chip.ok c -> 0 <= pin <= 15 ->
    exists (c' : Chip.regs) (on0 off0 on1 off1 : Z),
      final (run Chip.step (pca9685FullOff fd pin tf) c) = Some c'
      /\ Chip.readback fd pin c = Some (Some on0, Some off0)
      /\ Chip.readback fd pin c' = Some (Some on1, Some off1)
      /\ Z.land on1 0xFFF = Z.land on0 0xFFF
      /\ Z.land off1 0xFFF = Z.land off0 0xFFF
      /\ (forall q : Z, 0 <= q <= 15 -> q <> pin ->
            Chip.readback fd q c' = Chip.readback fd q c)
      /\ c' PCA9685_MODE1 = c PCA9685_MODE1
      /\ c' PCA9685_PRESCALE = c PCA9685_PRESCALE.
Proof.
  intros c fd pin tf Hok Hpin.
  destruct (pca9685FullOff_words c fd pin tf Hok Hpin) as (c' & Hf & _ & Hon & Hoff & Hfr).
  exists c'. eexists _, _, _, _. split; [exact Hf |].
  split; [apply readback_words, Hpin |]. split; [apply readback_words, Hpin |].
  rewrite Hon, Hoff. rewrite (baseReg_channel pin Hpin) in *.
  split; [reflexivity |].
  split; [destruct (tf =? 0); [apply ticks_clearbit | apply ticks_setbit] |].
  split; [| split].
  - intros q Hq Hne. apply readback_frame; [exact Hq |].
    intros a Ha. rewrite (baseReg_channel q Hq) in Ha. apply Hfr; lia.
  - apply Hfr; unfold PCA9685_MODE1; lia.
  - apply Hfr; unfold PCA9685_PRESCALE; lia.
Qed.

Lemma pca9685FullOff_local_witness :
  exists c' : Chip.regs,
    final (run Chip.step (pca9685FullOff 0 3 1) (fun _ => 0)) = Some c'
    /\ (forall q : Z, 0 <= q <= 15 -> q <> 3 ->
          Chip.readback 0 q c' = Chip.readback 0 q (fun _ => 0)).
Proof.
  destruct (pca9685FullOff_local (fun _ => 0) 0 3 1 ltac:(intros a; lia) ltac:(lia))
    as (c' & on0 & off0 & on1 & off1 & H1 & _ & _ & _ & _ & H6 & _).
  exists c'. split; assumption.
Defined.

Lemma run_seq_result {A B : Type} (p : io A) (k : io B) (c c' : Chip.regs) :
  final (run Chip.step p c) = Some c' ->
  result (run Chip.step (p ;; k) c) = result (run Chip.step k c')
  /\ final (run Chip.step (p ;; k) c) = final (run Chip.step k c').
Proof.
  intros H. rewrite run_bind.
  destruct (run Chip.step p c) as [[[t a] s] |]; [| discriminate H].
  cbn [final] in H. injection H as ->.
  destruct (run Chip.step k c') as [[[t' b] s'] |]; split; reflexivity.
Qed.

(** X11.  The two override routines do not commute.  On the register file,
    for a channel in 0..15: enabling full-off and then full-on ends with the
    full-on bit set and the full-off bit clear; enabling full-on and then
    full-off ends with both bits set. *)
Theorem override_order :
  forall (c : Chip.regs) (fd pin t1 t2 : Z),
    Chip.ok c -> 0 <= pin <= 15 -> t1 <> 0 -> t2 <> 0 ->
    exists on0 off0 : Z,
      Chip.readback fd pin c = Some (Some on0, Some off0)
      /\ result (run Chip.step
                   (pca9685FullOff fd pin t1 ;; pca9685FullOn fd pin t2 ;;
                    pca9685PWMRead fd pin true true) c)
         = Some (Some (Z.setbit on0 12), Some (Z.clearbit off0 12))
      /\ result (run Chip.step
                   (pca9685FullOn fd pin t1 ;; pca9685FullOff fd pin t2 ;;
                    pca9685PWMRead fd pin true true) c)
         = Some (Some (Z.setbit on0 12), Some (Z.setbit off0 12)).
Proof.
  intros c fd pin t1 t2 Hok Hpin H1 H2.
  apply Z.eqb_neq in H1, H2.
  eexists _, _. split; [apply readback_words, Hpin |]. split.
  - destruct (pca9685FullOff_words c fd pin t1 Hok Hpin)
      as (c1 & Hf1 & Hok1 & Hon1 & Hoff1 & _).
    destruct (pca9685FullOn_words c1 fd pin t2 Hok1 Hpin)
      as (c2 & Hf2 & _ & Hon2 & Hoff2 & _).
    destruct (run_seq_result _ (pca9685FullOn fd pin t2 ;; pca9685PWMRead fd pin true true)
                c c1 Hf1) as [-> _].
    destruct (run_seq_result _ (pca9685PWMRead fd pin true true) c1 c2 Hf2) as [-> _].
    fold (Chip.readback fd pin c2). rewrite readback_words by exact Hpin.
    rewrite Hon2, Hoff2, Hon1, Hoff1, H1, H2, clearbit_setbit by lia. reflexivity.
  - destruct (pca9685FullOn_words c fd pin t1 Hok Hpin)
      as (c1 & Hf1 & Hok1 & Hon1 & Hoff1 & _).
    destruct (pca9685FullOff_words c1 fd pin t2 Hok1 Hpin)
      as (c2 & Hf2 & _ & Hon2 & Hoff2 & _).
    destruct (run_seq_result _ (pca9685FullOff fd pin t2 ;; pca9685PWMRead fd pin true true)
                c c1 Hf1) as [-> _].
    destruct (run_seq_result _ (pca9685PWMRead fd pin true true) c1 c2 Hf2) as [-> _].
    fold (Chip.readback fd pin c2). rewrite readback_words by exact Hpin.
    rewrite Hon2, Hoff2, Hon1, Hoff1, H1, H2, setbit_clearbit by lia. reflexivity.
Qed.

Lemma override_order_witness :
  exists on0 off0 : Z,
    Chip.readback 0 3 (fun _ => 0) = Some (Some on0, Some off0)
    /\ result (run Chip.step
                 (pca9685FullOff 0 3 1 ;; pca9685FullOn 0 3 1 ;;
                  pca9685PWMRead 0 3 true true) (fun _ => 0))
       = Some (Some (Z.setbit on0 12), Some (Z.clearbit off0 12))
    /\ result (run Chip.step
                 (pca9685FullOn 0 3 1 ;; pca9685FullOff 0 3 1 ;;
                  pca9685PWMRead 0 3 true true) (fun _ => 0))
       = Some (Some (Z.setbit on0 12), Some (Z.setbit off0 12)).
Proof.
  apply (override_order (fun _ => 0) 0 3 1 1); [intros a; lia | lia | lia | lia].
Defined.

(** X12.  Enabling and then disabling full-on is not a round trip: on the
    register file, for a channel in 0..15, it ends with both override bits
    clear; when the full-off flag was set beforehand it is lost, the off word
    read back afterwards differing from the one read back before. *)
Theorem fullOn_toggle_clears_fullOff :
  forall (c : Chip.regs) (fd pin tf : Z),
    Chip.ok c -> 0 <= pin <= 15 -> tf <> 0 ->
    exists on0 off0 on2 off2 : Z,
      Chip.readback fd pin c = Some (Some on0, Some off0)
      /\ result (run Chip.step
                   (pca9685FullOn fd pin tf ;; pca9685FullOn fd pin 0 ;;
                    pca9685PWMRead fd pin true true) c)
         = Some (Some on2, Some off2)
      /\ on2 = Z.clearbit on0 12 /\ off2 = Z.clearbit off0 12
      /\ Z.testbit on2 12 = false /\ Z.testbit off2 12 = false
      /\ (Z.testbit off0 12 = true -> off2 <> off0).
Proof.
  intros c fd pin tf Hok Hpin Htf. apply Z.eqb_neq in Htf.
  eexists _, _, _, _. split; [apply readback_words, Hpin |].
  destruct (pca9685FullOn_words c fd pin tf Hok Hpin)
    as (c1 & Hf1 & Hok1 & Hon1 & Hoff1 & _).
  destruct (pca9685FullOn_words c1 fd pin 0 Hok1 Hpin)
    as (c2 & Hf2 & _ & Hon2 & Hoff2 & _).
  destruct (run_seq_result _ (pca9685FullOn fd pin 0 ;; pca9685PWMRead fd pin true true)
              c c1 Hf1) as [-> _].
  destruct (run_seq_result _ (pca9685PWMRead fd pin true true) c1 c2 Hf2) as [-> _].
  fold (Chip.readback fd pin c2). rewrite readback_words by exact Hpin.
  rewrite Hon2, Hoff2, Hon1, Hoff1, Htf. change (0 =? 0) with true. cbv iota.
  rewrite clearbit_setbit by lia.
  split; [reflexivity |]. split; [reflexivity |]. split; [reflexivity |].
  split; [apply Z.clearbit_eq |]. split; [apply Z.clearbit_eq |].
  intros Hset Heq. rewrite <- Heq, Z.clearbit_eq in Hset. discriminate Hset.
Qed.

Lemma fullOn_toggle_clears_fullOff_witness :
  Chip.readback 0 3 (Chip.upd (fun _ => 0) 21 0x10) = Some (Some 0, Some 0x1000)
  /\ result (run Chip.step
               (pca9685FullOn 0 3 1 ;; pca9685FullOn 0 3 0 ;;
                pca9685PWMRead 0 3 true true) (Chip.upd (fun _ => 0) 21 0x10))
     = Some (Some 0, Some 0).
Proof.
  split; [reflexivity |].
  destruct (fullOn_toggle_clears_fullOff (Chip.upd (fun _ => 0) 21 0x10) 0 3 1)
    as (on0 & off0 & on2 & off2 & Hrb & Hres & Hon & Hoff & _);
    [intros a; unfold Chip.upd; destruct (a =? 21); lia | lia | lia |].
  assert (Hrb0 : Chip.readback 0 3 (Chip.upd (fun _ => 0) 21 0x10)
                 = Some (Some 0, Some 0x1000)) by reflexivity.
  rewrite Hrb0 in Hrb. injection Hrb as <- <-.
  rewrite Hres, Hon, Hoff. reflexivity.
Defined.

Lemma restart_byte (r : Z) :
  0 <= r < 256 ->
  Z.land (Z.lor (Z.land (Z.land r 0x7F) 0xEF) 0x80) 0xFF = Z.setbit (Z.clearbit r 4) 7.
Proof.
  intros H. apply Z.eqb_eq.
  apply (forall_range
           (fun r => Z.land (Z.lor (Z.land (Z.land r 0x7F) 0xEF) 0x80) 0xFF
                     =? Z.setbit (Z.clearbit r 4) 7) 0 256); [| lia].
  vm_compute. reflexivity.
Qed.

Lemma autoInc_stored (r : Z) :
  0 <= r < 256 ->
  Z.land (Z.lor (Z.land r 0x7F) 0x20) 0xFF = Z.setbit (Z.clearbit r 7) 5
  /\ Z.testbit (Z.setbit (Z.clearbit r 7) 5) 4 = Z.testbit r 4
  /\ Z.setbit (Z.clearbit (Z.setbit (Z.clearbit r 7) 5) 4) 7
     = Z.setbit (Z.setbit (Z.clearbit r 4) 5) 7.
Proof.
  intros H.
  pose proof (forall_range
                (fun r => (Z.land (Z.lor (Z.land r 0x7F) 0x20) 0xFF
                           =? Z.setbit (Z.clearbit r 7) 5)
                          && Bool.eqb (Z.testbit (Z.setbit (Z.clearbit r 7) 5) 4)
                                      (Z.testbit r 4)
                          && (Z.setbit (Z.clearbit (Z.setbit (Z.clearbit r 7) 5) 4) 7
                              =? Z.setbit (Z.setbit (Z.clearbit r 4) 5) 7))
                0 256 ltac:(vm_compute; reflexivity) r ltac:(lia)) as Hx.
  cbv beta in Hx. rewrite !andb_true_iff, !Z.eqb_eq in Hx.
  destruct Hx as [[H1 H2] H3]. apply Bool.eqb_prop in H2. auto.
Qed.

Lemma pca9685PWMFreq_final (c : Chip.regs) (fd : Z) (f : Float32.float) (p : Z) :
  Chip.ok c -> prescaleOf (capFreq f) = Some p -> 5 <= p <= 152 ->
  exists c' : Chip.regs,
    final (run Chip.step (pca9685PWMFreq fd f) c) = Some c'
    /\ c' PCA9685_MODE1 = Z.setbit (Z.clearbit (c PCA9685_MODE1) 4) 7
    /\ c' PCA9685_PRESCALE = p
    /\ (forall a : Z, a <> PCA9685_MODE1 -> a <> PCA9685_PRESCALE -> c' a = c a).
Proof.
  intros Hok Hp Hr. unfold pca9685PWMFreq. rewrite Hp.
  unfold i2cReadByteData, i2cWriteByteData, usleep. cbn [defined bind].
  rewrite !run_call. cbn [Chip.step fst snd run final].
  eexists. split; [reflexivity |]. unfold PCA9685_MODE1, PCA9685_PRESCALE.
  split; [| split].
  - upd_simpl. apply restart_byte, Hok.
  - upd_simpl. apply land_FF_byte. lia.
  - intros a H0 H254. upd_simpl. reflexivity.
Qed.

(** X13.  On the register file, for every frequency other than NaN,
    [pca9685PWMFreq] ends with MODE1 holding its former content with bit 4
    (sleep) cleared and bit 7 (restart) set, PRESCALE holding the computed
    prescale, and every other register unchanged. *)
Theorem pca9685PWMFreq_effect :
  forall (c : Chip.regs) (fd : Z) (f : Float32.float),
    Chip.ok c -> Float32.valid f = true -> Float32.is_nan f = false ->
    exists (c' : Chip.regs) (p : Z),
      final (run Chip.step (pca9685PWMFreq fd f) c) = Some c'
      /\ prescaleOf (capFreq f) = Some p
      /\ c' PCA9685_MODE1 = Z.setbit (Z.clearbit (c PCA9685_MODE1) 4) 7
      /\ c' PCA9685_PRESCALE = p
      /\ (forall a : Z, a <> PCA9685_MODE1 -> a <> PCA9685_PRESCALE -> c' a = c a).
Proof.
  intros c fd f Hok Hv Hn. destruct (prescale_range f Hv Hn) as (p & Hp & Hr).
  destruct (pca9685PWMFreq_final c fd f p Hok Hp Hr) as (c' & H1 & H2 & H3 & H4).
  exists c', p. auto.
Qed.

Lemma pca9685PWMFreq_effect_witness :
  exists (c' : Chip.regs) (p : Z),
    final (run Chip.step (pca9685PWMFreq 0 (Float32.of_Z 50)) (fun _ => 0)) = Some c'
    /\ prescaleOf (capFreq (Float32.of_Z 50)) = Some p
    /\ c' PCA9685_MODE1 = Z.setbit (Z.clearbit 0 4) 7
    /\ c' PCA9685_PRESCALE = p
    /\ (forall a : Z, a <> PCA9685_MODE1 -> a <> PCA9685_PRESCALE -> c' a = 0).
Proof.
  apply (pca9685PWMFreq_effect (fun _ => 0) 0 (Float32.of_Z 50));
    [intros a; lia | reflexivity | reflexivity].
Defined.

(** X14.  On the register file, [pca9685Setup] changes no register other
    than MODE1 and PRESCALE.  With a frequency greater than 0 it ends with
    MODE1 holding its former content with bit 4 cleared and bits 5 and 7 set,
    and PRESCALE holding the prescale of the frequency; otherwise it ends
    with MODE1 holding its former content with bit 7 cleared and bit 5 set,
    the sleep bit (bit 4) and PRESCALE untouched. *)
Theorem pca9685Setup_effect :
  forall (c : Chip.regs) (handle : Z) (f : Float32.float),
    Chip.ok c -> Float32.valid f = true ->
    exists c' : Chip.regs,
      final (run Chip.step (pca9685Setup handle f) c) = Some c'
      /\ (forall a : Z, a <> PCA9685_MODE1 -> a <> PCA9685_PRESCALE -> c' a = c a)
      /\ (if Float32.gtb f (Float32.of_Z 0)
          then c' PCA9685_MODE1
               = Z.setbit (Z.setbit (Z.clearbit (c PCA9685_MODE1) 4) 5) 7
               /\ prescaleOf (capFreq f) = Some (c' PCA9685_PRESCALE)
          else c' PCA9685_MODE1 = Z.setbit (Z.clearbit (c PCA9685_MODE1) 7) 5
               /\ Z.testbit (c' PCA9685_MODE1) 4 = Z.testbit (c PCA9685_MODE1) 4
               /\ c' PCA9685_PRESCALE = c PCA9685_PRESCALE).
Proof.
  intros c handle f Hok Hv.
  pose proof (autoInc_stored (c PCA9685_MODE1) (Hok _)) as (Ha1 & Ha2 & Ha3).
  set (c1 := Chip.upd c PCA9685_MODE1 (Z.land (Z.lor (Z.land (c PCA9685_MODE1) 0x7F) 0x20) 0xFF)).
  assert (Hok1 : Chip.ok c1) by (apply upd_ok; [exact Hok | apply land_FF_range]).
  assert (Hrun : final (run Chip.step (pca9685Setup handle f) c)
                 = final (run Chip.step
                            ((if Float32.gtb f (Float32.of_Z 0)
                              then pca9685PWMFreq handle f else Ret tt) ;; Ret 1) c1)).
  { unfold pca9685Setup, i2cReadByteData, i2cWriteByteData. cbn [bind].
    rewrite !run_call. cbn [Chip.step fst snd]. fold c1.
    destruct (run Chip.step _ c1) as [[[t a] s] |]; reflexivity. }
  rewrite Hrun. clear Hrun.
  destruct (Float32.gtb f (Float32.of_Z 0)) eqn:Hgt.
  - destruct (prescale_range f Hv (gtb_zero_not_nan f Hgt)) as (p & Hp & Hr).
    destruct (pca9685PWMFreq_final c1 handle f p Hok1 Hp Hr) as (c' & Hf & Hm & Hpre & Hfr).
    destruct (run_seq_result _ (Ret 1) c1 c' Hf) as [_ ->]. cbn [run final].
    exists c'. split; [reflexivity |]. split; [| split].
    + intros a H0 H254. rewrite Hfr by assumption. unfold c1. apply upd_other, H0.
    + rewrite Hm. unfold c1. rewrite upd_same, Ha1. exact Ha3.
    + rewrite Hpre. exact Hp.
  - cbn [bind run final]. exists c1. split; [reflexivity |]. split; [| split; [| split]].
    + intros a H0 _. unfold c1. apply upd_other, H0.
    + unfold c1. rewrite upd_same. exact Ha1.
    + unfold c1. rewrite upd_same, Ha1. exact Ha2.
    + unfold c1. apply upd_other. discriminate.
Qed.

Lemma pca9685Setup_effect_witness :
  exists c' : Chip.regs,
    final (run Chip.step (pca9685Setup 0 (Float32.of_Z 50)) (fun _ => 0)) = Some c'
    /\ c' PCA9685_MODE1 = Z.setbit (Z.setbit (Z.clearbit 0 4) 5) 7
    /\ prescaleOf (capFreq (Float32.of_Z 50)) = Some (c' PCA9685_PRESCALE).
Proof.
  destruct (pca9685Setup_effect (fun _ => 0) 0 (Float32.of_Z 50)
              ltac:(intros a; lia) eq_refl) as (c' & H1 & _ & H3).
  change (Float32.gtb (Float32.of_Z 50) (Float32.of_Z 0)) with true in H3.
  destruct H3 as [H3 H4]. exists c'. auto.
Defined.
